(** * EchoVerse: the tone rewriter, the mock synthesiser and the session state

    A shallow embedding of [import streamlit as st.py]:

    - [MockWatsonxLLM.rewrite_text]  (lines 19-49)
    - [MockWatsonTTS.synthesize]     (lines 55-66)
    - [initialize_session_state]     (lines 68-79)
    - [process_uploaded_file]        (lines 81-90)
    - the part of [main] that reads or writes [st.session_state]
      (lines 118-242).

    Python values are modelled as the interpreter has them: a [str] is a
    sequence of code points, a [bytes] object a sequence of octets, a raised
    exception is an explicit outcome, and the three effects the script has
    (the session record, the wall clock that [time.sleep] advances and the
    notices put on the page) are threaded through a small monad. *)

From Stdlib Require Import List NArith ZArith Bool Arith Lia.
From Stdlib Require Import Strings.Ascii.
From Stdlib Require Strings.String.
From Stdlib Require Init.Byte Strings.Byte.
Import ListNotations String.StringSyntax.

(* ================================================================== *)
(** ** Python strings *)
(* ================================================================== *)

Module PyStr.

(** A character is its code point; a Python [str] is a list of them. *)
Definition char := N.
Definition str := list char.

(** The ASCII literals of the source, as code-point sequences. *)
Definition lit (s : String.string) : str :=
  List.map N_of_ascii (String.list_ascii_of_string s).
Arguments lit s%_string_scope.

(** The code point of an ASCII character literal. *)
Definition chr (a : ascii) : char := N_of_ascii a.

(** [a == b] on two [str]. *)
Fixpoint str_eqb (a b : str) : bool :=
  match a, b with
  | [], [] => true
  | x :: a', y :: b' => N.eqb x y && str_eqb a' b'
  | _, _ => false
  end.

(** Truth value of a [str] in a condition: non-empty. *)
Definition truthy (s : str) : bool :=
  match s with [] => false | _ :: _ => true end.

(** [s.startswith(p)]. *)
Fixpoint startswith (s p : str) {struct p} : bool :=
  match p, s with
  | [], _ => true
  | _ :: _, [] => false
  | x :: p', y :: s' => N.eqb x y && startswith s' p'
  end.

(** [s.endswith(p)]: the last [len(p)] characters of [s] are [p]. *)
Definition endswith (s p : str) : bool :=
  (length p <=? length s)%nat &&
  str_eqb (skipn (length s - length p) s) p.

(** [c in s] for a single character. *)
Definition has_char (c : char) (s : str) : bool :=
  existsb (N.eqb c) s.

(** [sub in s]: some suffix of [s] starts with [sub]. *)
Fixpoint contains (s sub : str) : bool :=
  startswith s sub ||
  match s with
  | [] => false
  | _ :: s' => contains s' sub
  end.

(** The left-to-right scan of [str.replace] for a non-empty pattern:
    at an occurrence of [old] emit [new] and skip the rest of the
    occurrence ([skip] counts the characters still to be passed over),
    otherwise copy the character. Occurrences do not overlap. *)
Fixpoint replace_scan (old new : str) (skip : nat) (s : str) : str :=
  match s with
  | [] => []
  | c :: rest =>
      match skip with
      | S k => replace_scan old new k rest
      | O =>
          if startswith s old
          then new ++ replace_scan old new (length old - 1) rest
          else c :: replace_scan old new 0 rest
      end
  end.

(** [s.replace(old, new)], all occurrences. With an empty [old] Python
    puts [new] before every character and at the end. *)
Definition replace (s old new : str) : str :=
  match old with
  | [] => new ++ flat_map (fun c => c :: new) s
  | _ :: _ => replace_scan old new 0 s
  end.

(** [s[:n]]. *)
Definition slice_to (n : nat) (s : str) : str := firstn n s.

End PyStr.
Import PyStr.

(* ================================================================== *)
(** ** MockWatsonxLLM *)
(* ================================================================== *)

Module MockWatsonxLLM.

(** [rewrite_text(text, tone)], lines 19-49. The dictionary
    [tone_prompts] of the source is built and never read. *)
Definition rewrite_text (text tone : str) : str :=
  if str_eqb tone (lit "Suspenseful") then
    let text := replace text (lit ".") (lit "... ") in
    let text := replace text (lit "important") (lit "crucial") in
    let text := replace text (lit "will") (lit "shall") in
    lit "What lies ahead? " ++ text ++ lit " The answer may surprise you."
  else if str_eqb tone (lit "Inspiring") then
    let text := replace text (lit "can") (lit "have the power to") in
    let text := replace text (lit "should") (lit "are destined to") in
    let text := replace text (lit "difficult") (lit "challenging yet conquerable") in
    lit "Imagine the possibilities: " ++ text ++ lit " Your journey begins now!"
  else if str_eqb tone (lit "Neutral") then
    let text := replace text (lit "!") (lit ".") in
    let text := replace text (lit "amazing") (lit "notable") in
    let text := replace text (lit "awesome") (lit "effective") in
    text
  else text.

End MockWatsonxLLM.

(* ================================================================== *)
(** ** Exceptions and outcomes *)
(* ================================================================== *)

(** The exceptions the modelled code can meet. [str(e)] is not rendered:
    a notice that interpolates it keeps the exception itself. *)
Inductive exn : Type :=
| UnicodeEncodeError (c : char) (pos : nat)
| UnicodeDecodeError (pos : nat)
| ValueError (what : str)
| KeyError (key : str)
| OtherError (msg : str).

(** What evaluating an expression gives: a value, or a raised exception. *)
Inductive result (A : Type) : Type :=
| Ok (a : A)
| Raise (e : exn).
Arguments Ok {A} a.
Arguments Raise {A} e.

Definition result_bind {A B} (r : result A) (k : A -> result B) : result B :=
  match r with
  | Ok a => k a
  | Raise e => Raise e
  end.

(* ================================================================== *)
(** ** Python bytes, UTF-8 and base64 *)
(* ================================================================== *)

Local Open Scope N_scope.

Module PyBytes.

Definition bytes := list Byte.byte.

(** An octet from a number below 256. *)
Definition octet (n : N) : Byte.byte :=
  match Byte.of_N (n mod 256) with
  | Some b => b
  | None => Byte.x00
  end.

(** The ASCII byte literals of the source, [b"..."]. *)
Definition blit (s : String.string) : bytes :=
  List.map byte_of_ascii (String.list_ascii_of_string s).
Arguments blit s%_string_scope.

(** UTF-8 of one code point; surrogates (U+D800..U+DFFF) have none, and
    neither has a number above U+10FFFF, which is no code point. *)
Definition utf8_char (c : char) : option bytes :=
  if c <? 0x80 then Some [octet c]
  else if c <? 0x800 then
    Some [octet (N.lor 0xC0 (N.shiftr c 6));
          octet (N.lor 0x80 (N.land c 0x3F))]
  else if c <? 0x10000 then
    if (0xD800 <=? c) && (c <=? 0xDFFF) then None
    else
      Some [octet (N.lor 0xE0 (N.shiftr c 12));
            octet (N.lor 0x80 (N.land (N.shiftr c 6) 0x3F));
            octet (N.lor 0x80 (N.land c 0x3F))]
  else if c <=? 0x10FFFF then
    Some [octet (N.lor 0xF0 (N.shiftr c 18));
          octet (N.lor 0x80 (N.land (N.shiftr c 12) 0x3F));
          octet (N.lor 0x80 (N.land (N.shiftr c 6) 0x3F));
          octet (N.lor 0x80 (N.land c 0x3F))]
  else None.

(** [s.encode()] (UTF-8, strict), scanning from position [pos]: the first
    character without an encoding raises [UnicodeEncodeError]. *)
Fixpoint encode_from (pos : nat) (s : str) : result bytes :=
  match s with
  | [] => Ok []
  | c :: rest =>
      match utf8_char c with
      | None => Raise (UnicodeEncodeError c pos)
      | Some bs =>
          match encode_from (S pos) rest with
          | Ok tl => Ok (bs ++ tl)
          | Raise e => Raise e
          end
      end
  end.

Definition encode (s : str) : result bytes := encode_from 0%nat s.

(** A continuation byte [10xxxxxx] within the given bounds. *)
Definition in_range (lo hi : N) (b : Byte.byte) : bool :=
  (lo <=? Byte.to_N b) && (Byte.to_N b <=? hi).

Definition low6 (b : Byte.byte) : N := N.land (Byte.to_N b) 0x3F.

(** [b.decode('utf-8')] (strict), scanning from position [pos]. Overlong
    forms, surrogates, values above U+10FFFF, stray continuation bytes and
    truncated sequences raise [UnicodeDecodeError]. *)
Fixpoint decode_from (pos : nat) (bs : bytes) : result str :=
  match bs with
  | [] => Ok []
  | b0 :: r0 =>
      let n0 := Byte.to_N b0 in
      if n0 <? 0x80 then
        match decode_from (S pos) r0 with
        | Ok tl => Ok (n0 :: tl)
        | Raise e => Raise e
        end
      else if in_range 0xC2 0xDF b0 then
        match r0 with
        | b1 :: r1 =>
            if in_range 0x80 0xBF b1 then
              match decode_from (2 + pos)%nat r1 with
              | Ok tl =>
                  Ok (N.lor (N.shiftl (N.land n0 0x1F) 6) (low6 b1) :: tl)
              | Raise e => Raise e
              end
            else Raise (UnicodeDecodeError pos)
        | _ => Raise (UnicodeDecodeError pos)
        end
      else if in_range 0xE0 0xEF b0 then
        match r0 with
        | b1 :: b2 :: r2 =>
            if in_range (if n0 =? 0xE0 then 0xA0 else 0x80)
                        (if n0 =? 0xED then 0x9F else 0xBF) b1
               && in_range 0x80 0xBF b2 then
              match decode_from (3 + pos)%nat r2 with
              | Ok tl =>
                  Ok (N.lor (N.shiftl (N.land n0 0x0F) 12)
                        (N.lor (N.shiftl (low6 b1) 6) (low6 b2)) :: tl)
              | Raise e => Raise e
              end
            else Raise (UnicodeDecodeError pos)
        | _ => Raise (UnicodeDecodeError pos)
        end
      else if in_range 0xF0 0xF4 b0 then
        match r0 with
        | b1 :: b2 :: b3 :: r3 =>
            if in_range (if n0 =? 0xF0 then 0x90 else 0x80)
                        (if n0 =? 0xF4 then 0x8F else 0xBF) b1
               && in_range 0x80 0xBF b2 && in_range 0x80 0xBF b3 then
              match decode_from (4 + pos)%nat r3 with
              | Ok tl =>
                  Ok (N.lor (N.shiftl (N.land n0 0x07) 18)
                        (N.lor (N.shiftl (low6 b1) 12)
                           (N.lor (N.shiftl (low6 b2) 6) (low6 b3))) :: tl)
              | Raise e => Raise e
              end
            else Raise (UnicodeDecodeError pos)
        | _ => Raise (UnicodeDecodeError pos)
        end
      else Raise (UnicodeDecodeError pos)
  end.

Definition decode (bs : bytes) : result str := decode_from 0%nat bs.

(** A Unicode scalar value: a code point that is not a surrogate. *)
Definition is_scalar (c : char) : bool :=
  (c <? 0xD800) || ((0xDFFF <? c) && (c <=? 0x10FFFF)).

(** The base64 alphabet of RFC 4648 and the padding byte. *)
Definition b64_alphabet : bytes :=
  blit "ABCDEFGHIJKLMNOPQRSTUVWXYZabcdefghijklmnopqrstuvwxyz0123456789+/".

Definition b64_pad : Byte.byte := Byte.x3d.

Definition b64_digit (n : N) : Byte.byte :=
  nth (N.to_nat n) b64_alphabet b64_pad.

(** [base64.b64encode(bs)]: three octets give four digits; a last group
    of one or two octets is padded with [=]. *)
Fixpoint b64encode (bs : bytes) : bytes :=
  match bs with
  | [] => []
  | [a] =>
      let x := Byte.to_N a in
      [b64_digit (N.shiftr x 2);
       b64_digit (N.shiftl (N.land x 3) 4);
       b64_pad; b64_pad]
  | [a; b] =>
      let x := Byte.to_N a in
      let y := Byte.to_N b in
      [b64_digit (N.shiftr x 2);
       b64_digit (N.lor (N.shiftl (N.land x 3) 4) (N.shiftr y 4));
       b64_digit (N.shiftl (N.land y 15) 2);
       b64_pad]
  | a :: b :: c :: rest =>
      let x := Byte.to_N a in
      let y := Byte.to_N b in
      let z := Byte.to_N c in
      b64_digit (N.shiftr x 2)
      :: b64_digit (N.lor (N.shiftl (N.land x 3) 4) (N.shiftr y 4))
      :: b64_digit (N.lor (N.shiftl (N.land y 15) 2) (N.shiftr z 6))
      :: b64_digit (N.land z 63)
      :: b64encode rest
  end.

End PyBytes.
Import PyBytes.

(** ** Whitespace *)

(** [c.isspace()]: the code points CPython treats as whitespace. *)
Definition isspace (c : char) : bool :=
  ((0x09 <=? c) && (c <=? 0x0D)) || ((0x1C <=? c) && (c <=? 0x20))
  || (c =? 0x85) || (c =? 0xA0) || (c =? 0x1680)
  || ((0x2000 <=? c) && (c <=? 0x200A))
  || (c =? 0x2028) || (c =? 0x2029) || (c =? 0x202F)
  || (c =? 0x205F) || (c =? 0x3000).

(** [s.lstrip()], [s.rstrip()] and [s.strip()]. *)
Fixpoint lstrip (s : str) : str :=
  match s with
  | [] => []
  | c :: rest => if isspace c then lstrip rest else s
  end.

Definition rstrip (s : str) : str := rev (lstrip (rev s)).

Definition strip (s : str) : str := rstrip (lstrip s).

(* ================================================================== *)
(** ** Effects *)
(* ================================================================== *)

(** A computation over a store [S]: it ends with a value or a raised
    exception, and with the store as it was left at that point. *)
Definition M (S A : Type) : Type := S -> result A * S.

Definition ret {S A} (a : A) : M S A := fun s => (Ok a, s).

Definition bind {S A B} (m : M S A) (k : A -> M S B) : M S B :=
  fun s =>
    match m s with
    | (Ok a, s') => k a s'
    | (Raise e, s') => (Raise e, s')
    end.

Definition raise {S A} (e : exn) : M S A := fun s => (Raise e, s).

(** An expression that may raise, evaluated inside a computation. *)
Definition eval {S A} (r : result A) : M S A := fun s => (r, s).

(** [try: body / except Exception as e: handler e]. *)
Definition try_except {S A} (body : M S A) (handler : exn -> M S A) : M S A :=
  fun s =>
    match body s with
    | (Ok a, s') => (Ok a, s')
    | (Raise e, s') => handler e s'
    end.

Definition modify {S} (f : S -> S) : M S unit := fun s => (Ok tt, f s).

Declare Scope py_scope.
Delimit Scope py_scope with py.
Notation "x <- m ;; k" := (bind m (fun x => k))
  (at level 61, m at next level, right associativity) : py_scope.
Notation "m ;; k" := (bind m (fun _ => k))
  (at level 61, right associativity) : py_scope.
Local Open Scope py_scope.

(** What the page shows: [st.success], [st.info] and [st.error]. An error
    notice is [st.error(f"{prefix}{str(e)}")]. *)
Inductive notice : Type :=
| Success (msg : str)
| Info (msg : str)
| Error (prefix : str) (cause : exn).

(** The world outside the session: the clock, in seconds, and the notices
    shown so far in this run (latest first). *)
Record Env : Type := mkEnv {
  clock : N;
  page : list notice
}.

(** Code that cannot reach the session record. *)
Definition Svc (A : Type) : Type := M Env A.

Definition time_sleep (secs : N) : Svc unit :=
  modify (fun e => mkEnv (clock e + secs) (page e)).

Definition show (n : notice) : Svc unit :=
  modify (fun e => mkEnv (clock e) (n :: page e)).

Definition st_success (msg : str) : Svc unit := show (Success msg).
Definition st_info (msg : str) : Svc unit := show (Info msg).
Definition st_error (prefix : str) (e : exn) : Svc unit := show (Error prefix e).

(* ================================================================== *)
(** ** MockWatsonTTS *)
(* ================================================================== *)

Module MockWatsonTTS.

(** [synthesize(text, voice)], lines 55-66. *)
Definition synthesize (text voice : str) : Svc bytes :=
  time_sleep 1 ;;
  t <- eval (encode (slice_to 50 text)) ;;
  v <- eval (encode voice) ;;
  let audio_data := blit "MOCK_AUDIO_DATA_" ++ t ++ blit "_" ++ v in
  ret (b64encode audio_data).

End MockWatsonTTS.

(** The contract of [synthesize] at one pair of arguments: both
    encodings exist and the call returns the base64 of marker, text,
    separator and voice. *)
Definition returns_mock_audio (text voice : str) : Prop :=
  forall e : Env,
  exists t v : bytes,
    encode (slice_to 50 text) = Ok t
    /\ encode voice = Ok v
    /\ fst (MockWatsonTTS.synthesize text voice e)
       = Ok (b64encode (blit "MOCK_AUDIO_DATA_" ++ t ++ blit "_" ++ v)).

(* ================================================================== *)
(** ** The session record *)
(* ================================================================== *)

(** [st.session_state] once [initialize_session_state] has run. *)
Record SessionState : Type := mkSession {
  original_text : str;
  rewritten_text : str;
  selected_tone : str;
  selected_voice : str;
  audio_data : option bytes
}.

Definition set_original_text (v : str) (s : SessionState) : SessionState :=
  mkSession v (rewritten_text s) (selected_tone s) (selected_voice s) (audio_data s).
Definition set_rewritten_text (v : str) (s : SessionState) : SessionState :=
  mkSession (original_text s) v (selected_tone s) (selected_voice s) (audio_data s).
Definition set_selected_tone (v : str) (s : SessionState) : SessionState :=
  mkSession (original_text s) (rewritten_text s) v (selected_voice s) (audio_data s).
Definition set_selected_voice (v : str) (s : SessionState) : SessionState :=
  mkSession (original_text s) (rewritten_text s) (selected_tone s) v (audio_data s).
Definition set_audio_data (v : option bytes) (s : SessionState) : SessionState :=
  mkSession (original_text s) (rewritten_text s) (selected_tone s) (selected_voice s) v.

(** The session as a browser tab may hold it before the script has run:
    every key present or not. *)
Record RawSession : Type := mkRaw {
  raw_original_text : option str;
  raw_rewritten_text : option str;
  raw_selected_tone : option str;
  raw_selected_voice : option str;
  raw_audio_data : option (option bytes)
}.

Definition or_default {A} (o : option A) (d : A) : A :=
  match o with Some a => a | None => d end.

(** [initialize_session_state()], lines 68-79: a key that is absent gets
    its default, a key that is present is kept. *)
Definition initialize_session_state (r : RawSession) : SessionState :=
  mkSession
    (or_default (raw_original_text r) [])
    (or_default (raw_rewritten_text r) [])
    (or_default (raw_selected_tone r) (lit "Neutral"))
    (or_default (raw_selected_voice r) (lit "Lisa"))
    (or_default (raw_audio_data r) None).

(** A script run works on the session and on the world around it. *)
Definition Script (A : Type) : Type := M (SessionState * Env) A.

Definition lift {A} (m : Svc A) : Script A :=
  fun w =>
    match m (snd w) with
    | (r, e') => (r, (fst w, e'))
    end.

Definition session : Script SessionState :=
  fun w => (Ok (fst w), w).

Definition assign (f : SessionState -> SessionState) : Script unit :=
  fun w => (Ok tt, (f (fst w), snd w)).

(* ================================================================== *)
(** ** process_uploaded_file *)
(* ================================================================== *)

(** What [uploaded_file.read()] hands back. *)
Inductive content : Type :=
| CBytes (b : bytes)
| CStr (s : str).

(** An uploaded file, seen through the one call the script makes on it. *)
Record UploadedFile : Type := mkFile {
  read : result content
}.

(** [process_uploaded_file(uploaded_file)], lines 81-90. *)
Definition process_uploaded_file (uploaded_file : UploadedFile) : Svc str :=
  try_except
    (content <- eval (read uploaded_file) ;;
     content <- match content with
                | CBytes b => eval (decode b)
                | CStr s => ret s
                end ;;
     ret (strip content))
    (fun e =>
       st_error (lit "Error reading file: ") e ;;
       ret []).

(* ================================================================== *)
(** ** main *)
(* ================================================================== *)

(** The two services [main] calls. The script instantiates the mock
    classes; in production they are the Watson SDK calls, which can fail. *)
Class Services : Type := {
  llm_rewrite_text : str -> str -> Svc str;
  tts_synthesize : str -> str -> Svc bytes
}.

#[export] Instance mock_services : Services := {
  llm_rewrite_text text tone := ret (MockWatsonxLLM.rewrite_text text tone);
  tts_synthesize text voice := MockWatsonTTS.synthesize text voice
}.

(** The entries of the two select boxes. *)
Inductive Voice : Type := Lisa | Michael | Allison.
Inductive Tone : Type := Neutral | Suspenseful | Inspiring.

Definition voice_name (v : Voice) : str :=
  match v with
  | Lisa => lit "Lisa"
  | Michael => lit "Michael"
  | Allison => lit "Allison"
  end.

Definition tone_name (t : Tone) : str :=
  match t with
  | Neutral => lit "Neutral"
  | Suspenseful => lit "Suspenseful"
  | Inspiring => lit "Inspiring"
  end.

Definition voice_options : list str := List.map voice_name [Lisa; Michael; Allison].
Definition tone_options : list str := List.map tone_name [Neutral; Suspenseful; Inspiring].

(** [options.index(x)]: the first position of [x], or [ValueError]. *)
Fixpoint list_index (x : str) (options : list str) : result nat :=
  match options with
  | [] => Raise (ValueError x)
  | o :: rest =>
      if str_eqb o x then Ok 0%nat
      else match list_index x rest with
           | Ok i => Ok (S i)
           | Raise e => Raise e
           end
  end.

(** [d[key]] on a dictionary with [str] keys, or [KeyError]. *)
Fixpoint dict_get (d : list (str * str)) (key : str) : result str :=
  match d with
  | [] => Raise (KeyError key)
  | (k, v) :: rest => if str_eqb k key then Ok v else dict_get rest key
  end.

Definition tone_descriptions : list (str * str) :=
  [ (lit "Neutral", 0x1F4DD :: lit " Clear, balanced, and objective narration");
    (lit "Suspenseful", 0x1F3AD :: lit " Dramatic tension and engaging mystery");
    (lit "Inspiring", 0x2728 :: lit " Uplifting and motivational delivery") ].

(** What the input column returns in one run: the radio choice with the
    value of the widget under it. *)
Inductive InputMethod : Type :=
| PasteText (text_input : str)
| UploadFile (uploaded_file : option UploadedFile).

(** What the widgets return in one run of the script. A button is only
    consulted when the script reaches it. *)
Record Widgets : Type := mkWidgets {
  voice_choice : Voice;
  tone_choice : Tone;
  input_method : InputMethod;
  rewrite_button : bool;
  audio_button : bool
}.

Section Main.

Context {services : Services}.
Variable w : Widgets.

(** Lines 118-145: the two select boxes and the tone description. *)
Definition sidebar : Script unit :=
  s <- session ;;
  _ <- eval (list_index (selected_voice s) voice_options) ;;
  assign (set_selected_voice (voice_name (voice_choice w))) ;;
  s <- session ;;
  _ <- eval (list_index (selected_tone s) tone_options) ;;
  assign (set_selected_tone (tone_name (tone_choice w))) ;;
  s <- session ;;
  d <- eval (dict_get tone_descriptions (selected_tone s)) ;;
  lift (st_info d).

(** Lines 168-171 and 183-185: a new original text drops what was
    derived from the old one. *)
Definition replace_original (text : str) : Script unit :=
  assign (set_original_text text) ;;
  assign (set_rewritten_text []) ;;
  assign (set_audio_data None).

(** Lines 160-193: pasted text or an uploaded file. *)
Definition input_column : Script unit :=
  match input_method w with
  | PasteText text_input =>
      s <- session ;;
      if negb (str_eqb text_input (original_text s))
      then replace_original text_input
      else ret tt
  | UploadFile None => ret tt
  | UploadFile (Some uploaded_file) =>
      file_content <- lift (process_uploaded_file uploaded_file) ;;
      s <- session ;;
      if truthy file_content && negb (str_eqb file_content (original_text s))
      then replace_original file_content
      else ret tt
  end.

(** Lines 198-221: the rewrite button and its handler. *)
Definition rewrite_column : Script unit :=
  s <- session ;;
  if truthy (original_text s) then
    if rewrite_button w then
      try_except
        (s <- session ;;
         r <- lift (llm_rewrite_text (original_text s) (selected_tone s)) ;;
         assign (set_rewritten_text r) ;;
         lift (st_success (lit "Text successfully adapted!")))
        (fun e => lift (st_error (lit "Error processing text: ") e))
    else ret tt
  else lift (st_info (0x1F446 :: lit " Please enter or upload text to begin")).

(** Lines 224-242: the synthesis button and its handler. *)
Definition audio_section : Script unit :=
  s <- session ;;
  if truthy (rewritten_text s) then
    if audio_button w then
      try_except
        (s <- session ;;
         audio_bytes <- lift (tts_synthesize (rewritten_text s) (selected_voice s)) ;;
         assign (set_audio_data (Some audio_bytes)) ;;
         lift (st_success (lit "Audio generated successfully!")))
        (fun e => lift (st_error (lit "Error generating audio: ") e))
    else ret tt
  else ret tt.

(** One run of the script on an initialised session. The widgets after
    line 244 (download, comparison, footer) write nothing to the session. *)
Definition main : Script unit :=
  sidebar ;;
  input_column ;;
  rewrite_column ;;
  audio_section.

End Main.

(** The script as the server runs it, lines 101-110 and on: initialise
    the session of the tab, then the page. *)
Definition script {services : Services} (w : Widgets) (r : RawSession)
    : Env -> result unit * (SessionState * Env) :=
  fun e => main w (initialize_session_state r, e).

(** An initialised session as the tab keeps it between two runs. *)
Definition stored (s : SessionState) : RawSession :=
  mkRaw (Some (original_text s)) (Some (rewritten_text s))
        (Some (selected_tone s)) (Some (selected_voice s))
        (Some (audio_data s)).

(** The two selections are entries of their select boxes. *)
Definition valid_selection (s : SessionState) : Prop :=
  In (selected_voice s) voice_options /\ In (selected_tone s) tone_options.

(** The session a run of [main] leaves behind, whether or not it raised. *)
Definition session_after {A} (m : Script A) (s : SessionState) (e : Env) : SessionState :=
  fst (snd (m (s, e))).

Definition page_after {A} (m : Script A) (s : SessionState) (e : Env) : list notice :=
  page (snd (snd (m (s, e)))).

Definition outcome {A} (m : Script A) (s : SessionState) (e : Env) : result A :=
  fst (m (s, e)).

(** The four places where a run touches the session, in script order. *)
Inductive action : Type := Select | Input | Rewrite | Synthesize.

Definition handler {services : Services} (a : action) (w : Widgets) : Script unit :=
  match a with
  | Select => sidebar w
  | Input => input_column w
  | Rewrite => rewrite_column w
  | Synthesize => audio_section w
  end.

(** [s'] is the session after the handler of [a] ran on [s] in some world,
    or [s] itself when the run stopped before reaching it. *)
Definition reach {services : Services} (a : action) (w : Widgets)
    (s s' : SessionState) : Prop :=
  s' = s \/ exists e, s' = session_after (handler a w) s e.

(** The text an upload holds: what [read()] gives, decoded when it is
    bytes. *)
Definition decoded_content (f : UploadedFile) : result str :=
  result_bind (read f) (fun c =>
    match c with
    | CBytes b => decode b
    | CStr t => Ok t
    end).

(** A backend that is down: both calls raise. *)
Definition unavailable_services : Services := {|
  llm_rewrite_text _ _ := raise (OtherError (lit "service unavailable"));
  tts_synthesize _ _ := raise (OtherError (lit "service unavailable"))
|}.

(** Turning boolean comparisons in the context into arithmetic facts. *)
Ltac cmp_to_prop :=
  repeat match goal with
  | H : (_ && _) = true |- _ => apply andb_true_iff in H as [? ?]
  | H : (_ || _) = true |- _ => apply orb_true_iff in H as [?|?]
  | H : (_ && _) = false |- _ => apply andb_false_iff in H as [?|?]
  | H : (_ || _) = false |- _ => apply orb_false_iff in H as [? ?]
  | H : (_ <? _) = true |- _ => apply N.ltb_lt in H
  | H : (_ <? _) = false |- _ => apply N.ltb_ge in H
  | H : (_ <=? _) = true |- _ => apply N.leb_le in H
  | H : (_ <=? _) = false |- _ => apply N.leb_gt in H
  end.

(** What each handler can do to the session. *)
Definition effect_of (w : Widgets) (a : action) (s s' : SessionState) : Prop :=
  match a with
  | Select =>
      original_text s' = original_text s
      /\ rewritten_text s' = rewritten_text s
      /\ audio_data s' = audio_data s
  | Input =>
      s' = s
      \/ (original_text s' <> original_text s
          /\ s' = mkSession (original_text s') [] (selected_tone s) (selected_voice s) None)
  | Rewrite =>
      s' = s
      \/ (rewrite_button w = true /\ truthy (original_text s) = true
          /\ exists r, s' = set_rewritten_text r s)
  | Synthesize =>
      s' = s
      \/ (audio_button w = true /\ truthy (rewritten_text s) = true
          /\ exists b, s' = set_audio_data (Some b) s)
  end.

(** An upload that yields no text: reading or decoding failed, or the
    text is empty or whitespace only. *)
Definition blank_upload (f : UploadedFile) : Prop :=
  match decoded_content f with
  | Ok t => forallb isspace t = true
  | Raise _ => True
  end.

(** ** A session to try things on *)

Definition env0 : Env := mkEnv 0 [].

(** A new browser tab. *)
Definition fresh_session : SessionState :=
  initialize_session_state (mkRaw None None None None None).

Definition scenario_text : str := lit "This is amazing! It will be important.".

(** Paste the text, press the rewrite button, press the audio button. *)
Definition w_paste : Widgets :=
  mkWidgets Lisa Neutral (PasteText scenario_text) false false.
Definition w_rewrite : Widgets :=
  mkWidgets Lisa Neutral (PasteText scenario_text) true false.
Definition w_audio : Widgets :=
  mkWidgets Lisa Neutral (PasteText scenario_text) false true.

Definition session_with_audio : SessionState :=
  let s1 := session_after (main w_paste) fresh_session env0 in
  let s2 := session_after (main w_rewrite) s1 env0 in
  session_after (main w_audio) s2 env0.

(** Then: edit the text; or pick another voice and tone; or upload a file
    of blanks, or one that is not UTF-8. *)
Definition w_edit : Widgets :=
  mkWidgets Lisa Neutral (PasteText (lit "Something else.")) false false.
Definition w_other_voice : Widgets :=
  mkWidgets Michael Suspenseful (PasteText scenario_text) false false.
Definition blank_file : UploadedFile :=
  mkFile (Ok (CBytes (List.map octet [0x20; 0x0A; 0x09; 0x20]))).
Definition broken_file : UploadedFile :=
  mkFile (Ok (CBytes (List.map octet [0x48; 0xFF; 0x69]))).
Definition w_upload (f : UploadedFile) : Widgets :=
  mkWidgets Lisa Neutral (UploadFile (Some f)) false false.

(** A session whose rewritten text holds a lone surrogate. *)
Definition surrogate_session : SessionState :=
  mkSession [0xD800] [0xD800] (lit "Neutral") (lit "Lisa") None.

(* ================================================================== *)
(** ** The rest of the script *)
(* ================================================================== *)

(** One more decoded character in front of what follows. *)
Definition then_cons (c : char) (r : result str) : result str :=
  result_bind r (fun tl => Ok (c :: tl)).

(** [base64.b64decode(s)], as [main] calls it (no alternative alphabet, no
    validation): the scan of [binascii.a2b_base64]. A digit outside the
    alphabet is passed over; [=] counts as padding once two digits of a
    group are in, and padding that completes a group ends the scan; input
    that ends inside a group raises [binascii.Error]. [quad_pos] is the
    place in the group of four, [leftchar] the bits not yet written. *)
Fixpoint index_of (b : Byte.byte) (l : bytes) (i : N) : option N :=
  match l with
  | [] => None
  | x :: rest => if Byte.eqb x b then Some i else index_of b rest (i + 1)
  end.

Definition b64_value (b : Byte.byte) : option N := index_of b b64_alphabet 0.

Definition emit (b : Byte.byte) (r : result bytes) : result bytes :=
  result_bind r (fun tl => Ok (b :: tl)).

Fixpoint a2b_base64 (quad_pos : nat) (leftchar : N) (pads : nat) (s : bytes)
    : result bytes :=
  match s with
  | [] =>
      match quad_pos with
      | O => Ok []
      | S O => Raise (OtherError (lit "Invalid base64-encoded string"))
      | _ => Raise (OtherError (lit "Incorrect padding"))
      end
  | this_ch :: rest =>
      if Byte.eqb this_ch b64_pad then
        if (2 <=? quad_pos)%nat then
          if (4 <=? quad_pos + S pads)%nat then Ok []
          else a2b_base64 quad_pos leftchar (S pads) rest
        else a2b_base64 quad_pos leftchar pads rest
      else
        match b64_value this_ch with
        | None => a2b_base64 quad_pos leftchar pads rest
        | Some v =>
            match quad_pos with
            | O => a2b_base64 1 v 0 rest
            | S O =>
                emit (octet (N.lor (N.shiftl leftchar 2) (N.shiftr v 4)))
                  (a2b_base64 2 (N.land v 0x0F) 0 rest)
            | S (S O) =>
                emit (octet (N.lor (N.shiftl leftchar 4) (N.shiftr v 2)))
                  (a2b_base64 3 (N.land v 0x03) 0 rest)
            | _ =>
                emit (octet (N.lor (N.shiftl leftchar 6) v))
                  (a2b_base64 0 0 0 rest)
            end
        end
  end.

Definition b64decode (s : bytes) : result bytes := a2b_base64 0 0 0 s.

(** [create_audio_player(audio_data, filename)], lines 92-99. The quote
    character of the markup is code point 34. *)
Definition create_audio_player (audio_data : bytes) (filename : str) : result str :=
  result_bind (decode (b64encode audio_data)) (fun b64_audio =>
    Ok (lit "<a href=" ++ [34] ++ lit "data:audio/mp3;base64," ++ b64_audio
        ++ [34] ++ lit " download=" ++ [34] ++ filename ++ [34]
        ++ lit ">Download Audio File</a>")).

(** The default of the second parameter. *)
Definition create_audio_player_default (audio_data : bytes) : result str :=
  create_audio_player audio_data (lit "audiobook.mp3").

(** What [st.download_button] is given. *)
Record Download : Type := mkDownload {
  file_name : str;
  data : bytes;
  mime : str
}.

(** [c.lower()] for a character of ASCII. *)
Definition ascii_lower (c : char) : char :=
  if (0x41 <=? c) && (c <=? 0x5A) then c + 32 else c.

Definition is_ascii (c : char) : bool := c <? 0x80.

Section DownloadColumn.

(** [str.lower] follows the Unicode tables, which are not spelled out
    here; all that is used of it is what it does on ASCII text. *)
Variable str_lower : str -> str.

(** Line 253. *)
Definition download_filename (s : SessionState) : str :=
  lit "audiobook_" ++ str_lower (selected_tone s) ++ lit "_"
  ++ str_lower (selected_voice s) ++ lit ".mp3".

(** Lines 244-262, which sit under the test of [rewritten_text] of line
    224: the notice, the file name, the decoded bytes handed to the
    download button, and the notice when the button is pressed. The
    subheader and the caption are left out. *)
Definition download_column (download_button : bool) : Script (option Download) :=
  s <- session ;;
  if truthy (rewritten_text s) then
    match audio_data s with
    | Some (b :: rest) =>
        lift (st_info (0x1F3B5 :: lit " Audio preview would be available here")) ;;
        let filename := download_filename s in
        payload <- eval (b64decode (b :: rest)) ;;
        (if download_button
         then lift (st_success (lit "Download started!"))
         else ret tt) ;;
        ret (Some (mkDownload filename payload (lit "audio/mp3")))
    | _ => ret None
    end
  else ret None.

End DownloadColumn.

(** [s.split()]: the maximal runs of characters that are not whitespace.
    [word] holds the run being read, last character first. *)
Fixpoint split_scan (word : str) (s : str) : list str :=
  match s with
  | [] => match word with [] => [] | _ :: _ => [rev word] end
  | c :: rest =>
      if isspace c then
        match word with
        | [] => split_scan [] rest
        | _ :: _ => rev word :: split_scan [] rest
        end
      else split_scan (c :: word) rest
  end.

Definition split (s : str) : list str := split_scan [] s.

(** The three figures shown under a text, lines 282-286 and 302-306; the
    reading time is the number put before [" min"]. *)
Record TextStats : Type := mkStats {
  words : nat;
  characters : nat;
  reading_minutes : nat
}.

Definition text_stats (text : str) : TextStats :=
  mkStats (length (split text)) (length text) (length (split text) / 200 + 1)%nat.

(** Lines 265-309: the comparison is shown when both texts are there. *)
Definition comparison (s : SessionState) : option (TextStats * TextStats) :=
  if truthy (original_text s) && truthy (rewritten_text s)
  then Some (text_stats (original_text s), text_stats (rewritten_text s))
  else None.

(** The sessions a tab can be in: a new one, and what a run of the script
    with the mock services leaves. *)
Inductive reachable : SessionState -> Prop :=
| reach_fresh : reachable fresh_session
| reach_run (w : Widgets) (s : SessionState) (e : Env) :
    reachable s ->
    reachable (session_after (@main mock_services w) s e).

(** Bytes as the mock synthesiser makes them. *)
Definition mock_audio (a : bytes) : Prop :=
  exists t v : bytes, a = b64encode (blit "MOCK_AUDIO_DATA_" ++ t ++ blit "_" ++ v).

(** What holds of the session between runs. *)
Definition consistent (s : SessionState) : Prop :=
  valid_selection s
  /\ (truthy (rewritten_text s) = true -> truthy (original_text s) = true)
  /\ (audio_data s <> None -> truthy (rewritten_text s) = true)
  /\ (forall a, audio_data s = Some a -> mock_audio a).

(* ================================================================== *)
(** ** What the formats are, by their RFCs *)
(* ================================================================== *)

(** These are not taken from the script: they say, in plain arithmetic
    on octet values, what UTF-8 and base64 are, so that the script's
    output can be compared with them. *)

(** RFC 3629, section 3: one to four octets by the range of the scalar
    value, the leading octet carrying the high bits under its mark, each
    following octet six bits under [10]. *)
Definition utf8_rfc3629_char (c : N) : list N :=
  if c <? 0x80 then [c]
  else if c <? 0x800 then [0xC0 + c / 64; 0x80 + c mod 64]
  else if c <? 0x10000 then
    [0xE0 + c / 4096; 0x80 + (c / 64) mod 64; 0x80 + c mod 64]
  else
    [0xF0 + c / 262144; 0x80 + (c / 4096) mod 64;
     0x80 + (c / 64) mod 64; 0x80 + c mod 64].

Definition utf8_rfc3629 (s : list N) : list N := flat_map utf8_rfc3629_char s.

(** RFC 4648, table 1: the character of a six-bit value. *)
Definition base64_rfc4648_digit (n : N) : N :=
  if n <? 26 then 65 + n
  else if n <? 52 then 97 + (n - 26)
  else if n <? 62 then 48 + (n - 52)
  else if n =? 62 then 43
  else 47.

(** RFC 4648, section 4: three octets make a 24-bit group read as four
    six-bit values; a last group of one or two octets is filled with zero
    bits to a whole number of six-bit values and the output is completed
    with [=] (61). *)
Fixpoint base64_rfc4648 (octets : list N) : list N :=
  match octets with
  | [] => []
  | [x] =>
      let g := x * 16 in
      [base64_rfc4648_digit (g / 64); base64_rfc4648_digit (g mod 64); 61; 61]
  | [x; y] =>
      let g := (x * 256 + y) * 4 in
      [base64_rfc4648_digit (g / 4096); base64_rfc4648_digit ((g / 64) mod 64);
       base64_rfc4648_digit (g mod 64); 61]
  | x :: y :: z :: rest =>
      let g := x * 65536 + y * 256 + z in
      base64_rfc4648_digit (g / 262144)
      :: base64_rfc4648_digit ((g / 4096) mod 64)
      :: base64_rfc4648_digit ((g / 64) mod 64)
      :: base64_rfc4648_digit (g mod 64)
      :: base64_rfc4648 rest
  end.

(** The code points [str.isspace] accepts, listed. *)
Definition whitespace_code_points : list N :=
  [0x09; 0x0A; 0x0B; 0x0C; 0x0D; 0x1C; 0x1D; 0x1E; 0x1F; 0x20; 0x85; 0xA0;
   0x1680; 0x2000; 0x2001; 0x2002; 0x2003; 0x2004; 0x2005; 0x2006; 0x2007;
   0x2008; 0x2009; 0x200A; 0x2028; 0x2029; 0x202F; 0x205F; 0x3000].

(** The session once the two select boxes have been read. *)
Definition selected (w : Widgets) (s : SessionState) : SessionState :=
  set_selected_tone (tone_name (tone_choice w))
    (set_selected_voice (voice_name (voice_choice w)) s).

(** More to try things on: sixty times U+00E9; a file with text in it. *)
Definition sixty_e_acute : str := repeat 0xE9 60.

Definition text_file : UploadedFile :=
  mkFile (Ok (CBytes (List.map octet
    [0x20; 0x09; 0x43; 0x61; 0x66; 0xC3; 0xA9; 0x20; 0x74; 0x69; 0x6D; 0x65;
     0x2E; 0x20; 0x0A]))).

Definition w_all : Widgets :=
  mkWidgets Michael Suspenseful (PasteText scenario_text) true true.
Definition w_upload_all (f : UploadedFile) : Widgets :=
  mkWidgets Allison Inspiring (UploadFile (Some f)) true true.
Definition stale_session : SessionState :=
  mkSession [] [] (lit "Neutral") (lit "Bob") None.

(** Comparisons as arithmetic, division and remainder by constants
    included. *)
Ltac divmod := zify; Z.to_euclidean_division_equations; lia.

(** ** Tactics *)

Ltac script_simpl :=
  cbn [fst snd original_text rewritten_text selected_tone selected_voice
       audio_data set_original_text set_rewritten_text set_selected_tone
       set_selected_voice set_audio_data clock page negb andb].

Ltac unfold_script :=
  unfold session_after, page_after, outcome, handler,
    sidebar, input_column, rewrite_column, audio_section, replace_original,
    bind, session, assign, eval, ret, raise, lift, try_except,
    st_info, st_success, st_error, show, modify;
  script_simpl.

(* ================================================================== *)
(** * Properties *)
(* ================================================================== *)

(** ** Strings *)

Section StringFacts.

Lemma str_eqb_refl (a : str) : str_eqb a a = true.
Proof.
  induction a as [|x a IH]; simpl; [reflexivity|].
  now rewrite N.eqb_refl, IH.
Qed.

Lemma str_eqb_eq (a b : str) : str_eqb a b = true <-> a = b.
Proof.
  split; [|intros ->; apply str_eqb_refl].
  revert b; induction a as [|x a IH]; intros [|y b]; simpl; try discriminate; auto.
  rewrite andb_true_iff, N.eqb_eq. intros [-> H]. f_equal. now apply IH.
Qed.

Lemma str_eqb_neq (a b : str) : a <> b -> str_eqb a b = false.
Proof.
  intros H. destruct (str_eqb a b) eqn:E; [|reflexivity].
  apply str_eqb_eq in E. contradiction.
Qed.

Lemma startswith_app (p s : str) : startswith (p ++ s) p = true.
Proof.
  induction p as [|x p IH]; simpl; [reflexivity|].
  now rewrite N.eqb_refl, IH.
Qed.

Lemma endswith_app (s p : str) : endswith (s ++ p) p = true.
Proof.
  unfold endswith. rewrite length_app.
  replace (length s + length p - length p)%nat with (length s + 0)%nat by lia.
  rewrite skipn_app, Nat.add_0_r, skipn_all.
  replace (length s - length s)%nat with 0%nat by lia.
  simpl. rewrite str_eqb_refl, andb_true_r.
  apply Nat.leb_le. lia.
Qed.

(** [endswith] looks only at the tail of a concatenation. *)
Lemma endswith_app_more (a b p : str) : endswith b p = true -> endswith (a ++ b) p = true.
Proof.
  unfold endswith. rewrite !andb_true_iff, !Nat.leb_le, length_app.
  intros [Hle Heq]. split; [lia|].
  replace (length a + length b - length p)%nat
    with (length a + (length b - length p))%nat by lia.
  rewrite skipn_app, skipn_all2 by lia. simpl.
  replace (length a + (length b - length p) - length a)%nat
    with (length b - length p)%nat by lia.
  exact Heq.
Qed.

(** A scan only ever emits characters of the text or of the replacement. *)
Lemma replace_scan_In (old new : str) (x : char) (s : str) :
  forall skip, In x (replace_scan old new skip s) -> In x new \/ In x s.
Proof.
  induction s as [|c rest IH]; intros skip; simpl; [tauto|].
  destruct skip as [|k].
  - destruct (startswith (c :: rest) old).
    + rewrite in_app_iff. intros [H|H]; [now left|].
      apply IH in H. tauto.
    + simpl. intros [H|H]; [tauto|]. apply IH in H. tauto.
  - intros H. apply IH in H. tauto.
Qed.

Lemma replace_In (s old new : str) (x : char) :
  In x (replace s old new) -> In x new \/ In x s.
Proof.
  unfold replace. destruct old as [|o old'].
  - rewrite in_app_iff, in_flat_map. intros [H|[c [Hc H]]]; [tauto|].
    destruct H as [<-|H]; tauto.
  - apply replace_scan_In.
Qed.

(** Replacing a one-character pattern leaves no occurrence of it, unless
    the replacement brings one. *)
Lemma replace_char_gone (s new : str) (c : char) :
  ~ In c new -> ~ In c (replace s [c] new).
Proof.
  intros Hnew. unfold replace.
  induction s as [|x rest IH]; simpl; [tauto|].
  destruct (N.eqb_spec c x) as [->|Hne]; simpl.
  - destruct rest; simpl; rewrite in_app_iff; tauto.
  - intros [H|H]; [congruence|tauto].
Qed.

(** The scan passes over [skip] characters and then starts afresh. *)
Lemma replace_scan_skip (old new p s : str) :
  replace_scan old new (length p) (p ++ s) = replace_scan old new 0 s.
Proof. induction p as [|x p IH]; simpl; auto. Qed.

(** The two equations of the scan: at an occurrence, and elsewhere. *)
Lemma replace_at_occurrence (o : char) (old new s : str) :
  replace ((o :: old) ++ s) (o :: old) new = new ++ replace s (o :: old) new.
Proof.
  unfold replace. simpl replace_scan at 1.
  rewrite N.eqb_refl, startswith_app. simpl.
  now rewrite Nat.sub_0_r, replace_scan_skip.
Qed.

Lemma replace_elsewhere (c o : char) (old new s : str) :
  startswith (c :: s) (o :: old) = false ->
  replace (c :: s) (o :: old) new = c :: replace s (o :: old) new.
Proof. unfold replace. simpl replace_scan at 1. intros H. simpl in H. now rewrite H. Qed.

(** A text without the pattern is returned as it is. *)
Lemma replace_absent (s old new : str) :
  contains s old = false -> replace s old new = s.
Proof.
  destruct old as [|o old].
  - intros H. destruct s; simpl in H; discriminate.
  - induction s as [|c rest IH]; [reflexivity|].
    intros H. simpl contains in H. apply orb_false_iff in H as [H1 H2].
    rewrite replace_elsewhere by exact H1. f_equal. now apply IH.
Qed.

End StringFacts.

(** ** The tone rewriter *)

Import MockWatsonxLLM.

(** C1: for every text, the Suspenseful rewrite starts with
    "What lies ahead? " and ends with "The answer may surprise you.", and
    the Inspiring rewrite starts with "Imagine the possibilities: " and
    ends with "Your journey begins now!"; the wrappers are put around the
    substituted text, whatever it is. *)
Theorem rewrite_text_wrappers (t : str) :
  startswith (rewrite_text t (lit "Suspenseful")) (lit "What lies ahead? ") = true
  /\ endswith (rewrite_text t (lit "Suspenseful")) (lit "The answer may surprise you.") = true
  /\ startswith (rewrite_text t (lit "Inspiring")) (lit "Imagine the possibilities: ") = true
  /\ endswith (rewrite_text t (lit "Inspiring")) (lit "Your journey begins now!") = true
  /\ rewrite_text t (lit "Suspenseful")
     = lit "What lies ahead? "
       ++ replace (replace (replace t (lit ".") (lit "... "))
                     (lit "important") (lit "crucial"))
            (lit "will") (lit "shall")
       ++ lit " The answer may surprise you."
  /\ rewrite_text t (lit "Inspiring")
     = lit "Imagine the possibilities: "
       ++ replace (replace (replace t (lit "can") (lit "have the power to"))
                     (lit "should") (lit "are destined to"))
            (lit "difficult") (lit "challenging yet conquerable")
       ++ lit " Your journey begins now!".
Proof.
  unfold rewrite_text.
  change (str_eqb (lit "Suspenseful") (lit "Suspenseful")) with true.
  change (str_eqb (lit "Inspiring") (lit "Suspenseful")) with false.
  change (str_eqb (lit "Inspiring") (lit "Inspiring")) with true.
  cbv iota zeta.
  split; [|split; [|split; [|split; [|split]]]].
  - apply startswith_app.
  - do 2 apply endswith_app_more. reflexivity.
  - apply startswith_app.
  - do 2 apply endswith_app_more. reflexivity.
  - reflexivity.
  - reflexivity.
Qed.

(** The wrappers on the empty text. *)
Example rewrite_text_empty :
  rewrite_text [] (lit "Suspenseful") = lit "What lies ahead?  The answer may surprise you."
  /\ rewrite_text [] (lit "Inspiring") = lit "Imagine the possibilities:  Your journey begins now!"
  /\ rewrite_text [] (lit "Neutral") = [].
Proof. repeat split. Qed.

(** The Neutral branch, as an equation. *)
Lemma rewrite_text_neutral_eq (t : str) :
  rewrite_text t (lit "Neutral")
  = replace (replace (replace t (lit "!") (lit "."))
               (lit "amazing") (lit "notable"))
      (lit "awesome") (lit "effective").
Proof. reflexivity. Qed.

(** C2: on "This is amazing! It will be important." the Neutral rewrite
    gives "This is notable. It will be important.", and on every text it
    is the three replacements "!" to ".", "amazing" to "notable",
    "awesome" to "effective", made in that order and on nothing else. *)
Theorem rewrite_text_neutral_scenario :
  rewrite_text (lit "This is amazing! It will be important.") (lit "Neutral")
    = lit "This is notable. It will be important."
  /\ forall t : str,
       rewrite_text t (lit "Neutral")
       = replace (replace (replace t (lit "!") (lit "."))
                    (lit "amazing") (lit "notable"))
           (lit "awesome") (lit "effective").
Proof. split; [vm_compute; reflexivity | exact rewrite_text_neutral_eq]. Qed.

(** The replacements are case-sensitive and global. *)
Example rewrite_text_neutral_case :
  rewrite_text (lit "Amazing! amazing! AWESOME awesome amazingly") (lit "Neutral")
  = lit "Amazing. notable. AWESOME effective notablely".
Proof. vm_compute. reflexivity. Qed.

(** A text with none of the three patterns comes back unchanged. *)
Lemma rewrite_text_neutral_fixed (t : str) :
  contains t (lit "!") = false ->
  contains t (lit "amazing") = false ->
  contains t (lit "awesome") = false ->
  rewrite_text t (lit "Neutral") = t.
Proof.
  intros H1 H2 H3.
  rewrite rewrite_text_neutral_eq.
  rewrite (replace_absent t _ _ H1), (replace_absent t _ _ H2).
  now apply replace_absent.
Qed.

(** C3: the Neutral rewrite of any text has no "!" in it. *)
Theorem rewrite_text_neutral_no_bang (t : str) :
  has_char (chr "!") (rewrite_text t (lit "Neutral")) = false
  /\ ~ In (chr "!") (rewrite_text t (lit "Neutral")).
Proof.
  change (chr "!") with 33.
  assert (H : ~ In 33 (rewrite_text t (lit "Neutral"))).
  { rewrite rewrite_text_neutral_eq.
    intros H.
    apply replace_In in H as [H|H].
    { vm_compute in H. intuition discriminate. }
    apply replace_In in H as [H|H].
    { vm_compute in H. intuition discriminate. }
    revert H. apply (replace_char_gone t (lit ".") 33).
    vm_compute. intuition discriminate. }
  split; [|exact H].
  unfold has_char. destruct (existsb _ _) eqn:E; [|reflexivity].
  apply existsb_exists in E as [x [Hx Hx']].
  apply N.eqb_eq in Hx'. subst x. contradiction.
Qed.

(** C9: with a tone that is none of "Neutral", "Suspenseful" and
    "Inspiring" the text is returned as it was given. *)
Theorem rewrite_text_other_tone (t tone : str) :
  tone <> lit "Neutral" ->
  tone <> lit "Suspenseful" ->
  tone <> lit "Inspiring" ->
  rewrite_text t tone = t.
Proof.
  intros Hn Hs Hi. unfold rewrite_text.
  now rewrite (str_eqb_neq _ _ Hs), (str_eqb_neq _ _ Hi), (str_eqb_neq _ _ Hn).
Qed.

Lemma rewrite_text_other_tone_witness :
  lit "neutral" <> lit "Neutral"
  /\ rewrite_text (lit "Wow! This is amazing.") (lit "neutral")
     = lit "Wow! This is amazing.".
Proof.
  assert (H1 : lit "neutral" <> lit "Neutral") by (vm_compute; discriminate).
  split; [exact H1|].
  apply rewrite_text_other_tone; [exact H1 | vm_compute; discriminate ..].
Defined.

(** ** The mock synthesiser *)

Import MockWatsonTTS.

Lemma utf8_char_scalar (c : char) :
  is_scalar c = true <-> exists bs, utf8_char c = Some bs.
Proof.
  unfold is_scalar, utf8_char.
  destruct (c <? 0x80) eqn:E1.
  { split; [eauto|]. intros _. apply orb_true_iff. left.
    apply N.ltb_lt. cmp_to_prop. lia. }
  destruct (c <? 0x800) eqn:E2.
  { split; [eauto|]. intros _. apply orb_true_iff. left.
    apply N.ltb_lt. cmp_to_prop. lia. }
  destruct (c <? 0x10000) eqn:E3.
  { destruct ((0xD800 <=? c) && (c <=? 0xDFFF)) eqn:E4.
    - split; [|intros [? ?]; discriminate].
      intros H. exfalso. cmp_to_prop; lia.
    - split; [eauto|]. intros _.
      destruct ((c <? 0xD800) || ((0xDFFF <? c) && (c <=? 0x10FFFF))) eqn:E5;
        [reflexivity|]. exfalso. cmp_to_prop; lia. }
  destruct (c <=? 0x10FFFF) eqn:E4.
  - split; [eauto|]. intros _.
    destruct ((c <? 0xD800) || ((0xDFFF <? c) && true)) eqn:E5;
      [reflexivity|]. exfalso. cmp_to_prop; try discriminate; lia.
  - split; [|intros [? ?]; discriminate].
    intros H. exfalso. cmp_to_prop; try discriminate; lia.
Qed.

Lemma encode_from_scalar (s : str) :
  forall pos, forallb is_scalar s = true <-> exists bs, encode_from pos s = Ok bs.
Proof.
  induction s as [|c rest IH]; intros pos; simpl.
  - split; eauto.
  - rewrite andb_true_iff, utf8_char_scalar, (IH (S pos)). split.
    + intros [[b ->] [tl ->]]. eauto.
    + destruct (utf8_char c); [|intros [? ?]; discriminate].
      destruct (encode_from (S pos) rest); [|intros [? ?]; discriminate].
      eauto.
Qed.

(** [encode] succeeds exactly on the texts without surrogates. *)
Lemma encode_scalar (s : str) :
  forallb is_scalar s = true <-> exists bs, encode s = Ok bs.
Proof. apply encode_from_scalar. Qed.

(** What a call does, whatever the world it runs in: the clock moves on
    by one second, and the value depends on the arguments alone. *)
Lemma synthesize_run (text voice : str) (e : Env) :
  synthesize text voice e
  = (result_bind (encode (slice_to 50 text)) (fun t =>
     result_bind (encode voice) (fun v =>
     Ok (b64encode (blit "MOCK_AUDIO_DATA_" ++ t ++ blit "_" ++ v)))),
     mkEnv (clock e + 1) (page e)).
Proof.
  unfold synthesize, bind, time_sleep, modify, eval, ret, result_bind.
  destruct (encode (slice_to 50 text)); [|reflexivity].
  destruct (encode voice); reflexivity.
Qed.

(** ** Octets, UTF-8 and base64 *)

Lemma to_N_octet (n : N) : n < 256 -> Byte.to_N (octet n) = n.
Proof.
  intros H. unfold octet. rewrite N.mod_small by exact H.
  destruct (Byte.of_N n) eqn:E.
  - now apply Byte.to_of_N.
  - apply Byte.of_N_None_iff in E. lia.
Qed.

Lemma octet_to_N (b : Byte.byte) : octet (Byte.to_N b) = b.
Proof.
  unfold octet. pose proof (Byte.to_N_bounded b).
  rewrite N.mod_small by lia. now rewrite Byte.of_to_N.
Qed.

Lemma lor_shiftl_add (a b n : N) : b < 2 ^ n -> N.lor (N.shiftl a n) b = a * 2 ^ n + b.
Proof.
  intros Hb. rewrite N.shiftl_mul_pow2.
  assert (Hd : N.land (a * 2 ^ n) b = 0).
  { destruct (N.eq_dec b 0) as [->|Hz]; [apply N.land_0_r|].
    apply N.bits_inj. intros m. rewrite N.land_spec, N.bits_0.
    destruct (N.lt_ge_cases m n) as [Hm|Hm].
    - now rewrite N.mul_pow2_bits_low.
    - rewrite (N.bits_above_log2 b m), andb_false_r; [reflexivity|].
      apply N.lt_le_trans with n; [|exact Hm].
      apply N.log2_lt_pow2; [lia|exact Hb]. }
  rewrite <- N.lxor_lor by exact Hd.
  symmetry. now apply N.add_nocarry_lxor.
Qed.

Lemma lor_add_high (k a n b : N) : k = a * 2 ^ n -> b < 2 ^ n -> N.lor k b = k + b.
Proof.
  intros -> Hb. rewrite <- N.shiftl_mul_pow2. rewrite lor_shiftl_add by exact Hb.
  now rewrite N.shiftl_mul_pow2.
Qed.


(** The bit operations of the codecs, as arithmetic. *)
Lemma shiftr_6 c : N.shiftr c 6 = c / 64. Proof. apply N.shiftr_div_pow2. Qed.
Lemma shiftr_12 c : N.shiftr c 12 = c / 4096. Proof. apply N.shiftr_div_pow2. Qed.
Lemma shiftr_18 c : N.shiftr c 18 = c / 262144. Proof. apply N.shiftr_div_pow2. Qed.
Lemma land_3F c : N.land c 0x3F = c mod 64. Proof. apply (N.land_ones c 6). Qed.
Lemma land_1F c : N.land c 0x1F = c mod 32. Proof. apply (N.land_ones c 5). Qed.
Lemma land_0F c : N.land c 0x0F = c mod 16. Proof. apply (N.land_ones c 4). Qed.
Lemma land_07 c : N.land c 0x07 = c mod 8. Proof. apply (N.land_ones c 3). Qed.

Lemma lead2 c : c < 0x800 -> N.lor 0xC0 (N.shiftr c 6) = 192 + c / 64.
Proof. intros H. rewrite shiftr_6. apply (lor_add_high 0xC0 3 6); [reflexivity|]. change (2^6) with 64. divmod. Qed.
Lemma lead3 c : c < 0x10000 -> N.lor 0xE0 (N.shiftr c 12) = 224 + c / 4096.
Proof. intros H. rewrite shiftr_12. apply (lor_add_high 0xE0 14 4); [reflexivity|]. change (2^4) with 16. divmod. Qed.
Lemma lead4 c : c <= 0x10FFFF -> N.lor 0xF0 (N.shiftr c 18) = 240 + c / 262144.
Proof. intros H. rewrite shiftr_18. apply (lor_add_high 0xF0 30 3); [reflexivity|]. change (2^3) with 8. divmod. Qed.
Lemma cont6 x : N.lor 0x80 (N.land x 0x3F) = 128 + x mod 64.
Proof. rewrite land_3F. apply (lor_add_high 0x80 2 6); [reflexivity|]. change (2^6) with 64. divmod. Qed.

Lemma join2 (a b : N) : b < 64 -> N.lor (N.shiftl a 6) b = a * 64 + b.
Proof. intros. now rewrite lor_shiftl_add. Qed.
Lemma join3 (a b c : N) : b < 64 -> c < 64 ->
  N.lor (N.shiftl a 12) (N.lor (N.shiftl b 6) c) = a * 4096 + b * 64 + c.
Proof.
  intros Hb Hc. rewrite (join2 b c Hc). rewrite lor_shiftl_add; [change (2^12) with 4096; lia|].
  change (2^12) with 4096. lia.
Qed.
Lemma join4 (a b c d : N) : b < 64 -> c < 64 -> d < 64 ->
  N.lor (N.shiftl a 18) (N.lor (N.shiftl b 12) (N.lor (N.shiftl c 6) d))
  = a * 262144 + b * 4096 + c * 64 + d.
Proof.
  intros Hb Hc Hd. rewrite (join3 b c d Hc Hd). rewrite lor_shiftl_add; [change (2^18) with 262144; lia|].
  change (2^18) with 262144. lia.
Qed.

Lemma low6_mod b : low6 b = Byte.to_N b mod 64.
Proof. apply land_3F. Qed.

Lemma in_range_iff lo hi b : in_range lo hi b = true <-> lo <= Byte.to_N b <= hi.
Proof. unfold in_range. rewrite andb_true_iff, !N.leb_le. tauto. Qed.

Lemma decode_from_1 pos b0 r :
  Byte.to_N b0 < 0x80 ->
  decode_from pos (b0 :: r) = then_cons (Byte.to_N b0) (decode_from (S pos) r).
Proof.
  intros H. cbn [decode_from]. 
  destruct (N.ltb_spec (Byte.to_N b0) 0x80); [reflexivity|lia].
Qed.

Lemma decode_from_2 pos b0 b1 r :
  0xC2 <= Byte.to_N b0 <= 0xDF ->
  0x80 <= Byte.to_N b1 <= 0xBF ->
  decode_from pos (b0 :: b1 :: r)
  = then_cons (Byte.to_N b0 mod 32 * 64 + Byte.to_N b1 mod 64)
      (decode_from (2 + pos) r).
Proof.
  intros H0 H1. cbn [decode_from].
  destruct (N.ltb_spec (Byte.to_N b0) 0x80); [lia|].
  rewrite (proj2 (in_range_iff 0xC2 0xDF b0) H0).
  rewrite (proj2 (in_range_iff 0x80 0xBF b1) H1).
  rewrite land_1F, low6_mod, join2 by (apply N.mod_lt; lia).
  reflexivity.
Qed.

Lemma decode_from_3 pos b0 b1 b2 r :
  0xE0 <= Byte.to_N b0 <= 0xEF ->
  in_range (if Byte.to_N b0 =? 0xE0 then 0xA0 else 0x80)
           (if Byte.to_N b0 =? 0xED then 0x9F else 0xBF) b1 = true ->
  0x80 <= Byte.to_N b2 <= 0xBF ->
  decode_from pos (b0 :: b1 :: b2 :: r)
  = then_cons (Byte.to_N b0 mod 16 * 4096 + Byte.to_N b1 mod 64 * 64
               + Byte.to_N b2 mod 64)
      (decode_from (3 + pos) r).
Proof.
  intros H0 H1 H2. cbn [decode_from].
  destruct (N.ltb_spec (Byte.to_N b0) 0x80); [lia|].
  destruct (in_range 0xC2 0xDF b0) eqn:E; [apply in_range_iff in E; lia|].
  rewrite (proj2 (in_range_iff 0xE0 0xEF b0) H0).
  rewrite H1, (proj2 (in_range_iff 0x80 0xBF b2) H2). cbn [andb].
  rewrite land_0F, !low6_mod, join3 by (apply N.mod_lt; lia).
  reflexivity.
Qed.

Lemma decode_from_4 pos b0 b1 b2 b3 r :
  0xF0 <= Byte.to_N b0 <= 0xF4 ->
  in_range (if Byte.to_N b0 =? 0xF0 then 0x90 else 0x80)
           (if Byte.to_N b0 =? 0xF4 then 0x8F else 0xBF) b1 = true ->
  0x80 <= Byte.to_N b2 <= 0xBF ->
  0x80 <= Byte.to_N b3 <= 0xBF ->
  decode_from pos (b0 :: b1 :: b2 :: b3 :: r)
  = then_cons (Byte.to_N b0 mod 8 * 262144 + Byte.to_N b1 mod 64 * 4096
               + Byte.to_N b2 mod 64 * 64 + Byte.to_N b3 mod 64)
      (decode_from (4 + pos) r).
Proof.
  intros H0 H1 H2 H3. cbn [decode_from].
  destruct (N.ltb_spec (Byte.to_N b0) 0x80); [lia|].
  destruct (in_range 0xC2 0xDF b0) eqn:E; [apply in_range_iff in E; lia|].
  destruct (in_range 0xE0 0xEF b0) eqn:E'; [apply in_range_iff in E'; lia|].
  rewrite (proj2 (in_range_iff 0xF0 0xF4 b0) H0).
  rewrite H1, (proj2 (in_range_iff 0x80 0xBF b2) H2),
    (proj2 (in_range_iff 0x80 0xBF b3) H3). cbn [andb].
  rewrite land_07, !low6_mod, join4 by (apply N.mod_lt; lia).
  reflexivity.
Qed.

Lemma some_inj {A} (a b : A) : Some a = Some b -> a = b.
Proof. intros H. now injection H. Qed.

(** Decoding what one character encodes to gives the character back. *)
Lemma decode_utf8_char (c : char) (bs : bytes) :
  utf8_char c = Some bs ->
  forall pos rest,
    decode_from pos (bs ++ rest)
    = then_cons c (decode_from (length bs + pos) rest).
Proof.
  unfold utf8_char. intros H pos rest.
  destruct (N.ltb_spec c 0x80) as [H1|H1].
  { apply some_inj in H; subst bs. cbn [app length Nat.add].
    rewrite decode_from_1; rewrite to_N_octet by lia; [reflexivity|lia]. }
  destruct (N.ltb_spec c 0x800) as [H2|H2].
  { apply some_inj in H; subst bs. cbn [app length].
    rewrite lead2, cont6 by lia.
    rewrite decode_from_2; rewrite ?to_N_octet by divmod; [|divmod..].
    f_equal. divmod. }
  destruct (N.ltb_spec c 0x10000) as [H3|H3].
  { destruct ((0xD800 <=? c) && (c <=? 0xDFFF)) eqn:E; [discriminate|].
    apply some_inj in H; subst bs. cbn [app length].
    rewrite lead3, !cont6 by lia. rewrite shiftr_6.
    rewrite decode_from_3; rewrite ?to_N_octet by divmod.
    - f_equal. divmod.
    - divmod.
    - apply in_range_iff. rewrite to_N_octet by divmod.
      apply andb_false_iff in E.
      destruct (N.eqb_spec (224 + c / 4096) 0xE0), (N.eqb_spec (224 + c / 4096) 0xED);
        destruct E as [E|E]; (apply N.leb_gt in E); divmod.
    - divmod. }
  destruct (N.leb_spec c 0x10FFFF) as [H4|H4]; [|discriminate].
  apply some_inj in H; subst bs. cbn [app length].
  rewrite lead4 by lia.
  rewrite !cont6. rewrite shiftr_12, shiftr_6.
  rewrite decode_from_4; rewrite ?to_N_octet by divmod.
  - f_equal. divmod.
  - divmod.
  - apply in_range_iff. rewrite to_N_octet by divmod.
    destruct (N.eqb_spec (240 + c / 262144) 0xF0), (N.eqb_spec (240 + c / 262144) 0xF4);
      divmod.
  - divmod.
  - divmod.
Qed.

Lemma decode_encode_from (s : str) :
  forall pos bs, encode_from pos s = Ok bs -> forall p, decode_from p bs = Ok s.
Proof.
  induction s as [|c rest IH]; intros pos bs H p.
  - injection H as <-. reflexivity.
  - cbn [encode_from] in H.
    destruct (utf8_char c) as [b|] eqn:Ec; [|discriminate].
    destruct (encode_from (S pos) rest) as [tl|] eqn:Er; [|discriminate].
    apply (f_equal (fun r => match r with Ok x => x | Raise _ => [] end)) in H.
    subst bs. rewrite (decode_utf8_char c b Ec).
    now rewrite (IH _ _ Er).
Qed.

Lemma utf8_char_of_bytes_1 b0 : Byte.to_N b0 < 0x80 -> utf8_char (Byte.to_N b0) = Some [b0].
Proof.
  intros H. unfold utf8_char.
  destruct (N.ltb_spec (Byte.to_N b0) 0x80); [|lia]. now rewrite octet_to_N.
Qed.

Lemma octet_eq (n : N) (b : Byte.byte) : n = Byte.to_N b -> octet n = b.
Proof. intros ->. apply octet_to_N. Qed.

Lemma utf8_char_of_bytes_2 b0 b1 :
  0xC2 <= Byte.to_N b0 <= 0xDF -> 0x80 <= Byte.to_N b1 <= 0xBF ->
  utf8_char (Byte.to_N b0 mod 32 * 64 + Byte.to_N b1 mod 64) = Some [b0; b1].
Proof.
  intros H0 H1. unfold utf8_char.
  set (c := Byte.to_N b0 mod 32 * 64 + Byte.to_N b1 mod 64).
  assert (Hc : 0x80 <= c < 0x800) by (subst c; divmod).
  destruct (N.ltb_spec c 0x80); [lia|].
  destruct (N.ltb_spec c 0x800); [|lia].
  rewrite lead2, cont6 by lia.
  f_equal. f_equal; [|f_equal]; apply octet_eq; subst c; divmod.
Qed.

Lemma utf8_char_of_bytes_3 b0 b1 b2 :
  0xE0 <= Byte.to_N b0 <= 0xEF ->
  in_range (if Byte.to_N b0 =? 0xE0 then 0xA0 else 0x80)
           (if Byte.to_N b0 =? 0xED then 0x9F else 0xBF) b1 = true ->
  0x80 <= Byte.to_N b2 <= 0xBF ->
  utf8_char (Byte.to_N b0 mod 16 * 4096 + Byte.to_N b1 mod 64 * 64
             + Byte.to_N b2 mod 64) = Some [b0; b1; b2].
Proof.
  intros H0 H1 H2. unfold utf8_char. apply in_range_iff in H1.
  set (c := Byte.to_N b0 mod 16 * 4096 + Byte.to_N b1 mod 64 * 64 + Byte.to_N b2 mod 64).
  assert (Hc : 0x800 <= c < 0x10000 /\ (c < 0xD800 \/ 0xDFFF < c)).
  { subst c. destruct (N.eqb_spec (Byte.to_N b0) 0xE0), (N.eqb_spec (Byte.to_N b0) 0xED); divmod. }
  destruct (N.ltb_spec c 0x80); [lia|].
  destruct (N.ltb_spec c 0x800); [lia|].
  destruct (N.ltb_spec c 0x10000); [|lia].
  destruct (N.leb_spec 0xD800 c), (N.leb_spec c 0xDFFF); cbn [andb]; try lia;
    rewrite lead3, !cont6 by lia; rewrite shiftr_6;
    (f_equal; f_equal; [|f_equal; [|f_equal]]; apply octet_eq; subst c;
     destruct (N.eqb_spec (Byte.to_N b0) 0xE0), (N.eqb_spec (Byte.to_N b0) 0xED); divmod).
Qed.

Lemma utf8_char_of_bytes_4 b0 b1 b2 b3 :
  0xF0 <= Byte.to_N b0 <= 0xF4 ->
  in_range (if Byte.to_N b0 =? 0xF0 then 0x90 else 0x80)
           (if Byte.to_N b0 =? 0xF4 then 0x8F else 0xBF) b1 = true ->
  0x80 <= Byte.to_N b2 <= 0xBF ->
  0x80 <= Byte.to_N b3 <= 0xBF ->
  utf8_char (Byte.to_N b0 mod 8 * 262144 + Byte.to_N b1 mod 64 * 4096
             + Byte.to_N b2 mod 64 * 64 + Byte.to_N b3 mod 64)
  = Some [b0; b1; b2; b3].
Proof.
  intros H0 H1 H2 H3. unfold utf8_char. apply in_range_iff in H1.
  set (c := Byte.to_N b0 mod 8 * 262144 + Byte.to_N b1 mod 64 * 4096
            + Byte.to_N b2 mod 64 * 64 + Byte.to_N b3 mod 64).
  assert (Hc : 0x10000 <= c <= 0x10FFFF).
  { subst c. destruct (N.eqb_spec (Byte.to_N b0) 0xF0), (N.eqb_spec (Byte.to_N b0) 0xF4); divmod. }
  destruct (N.ltb_spec c 0x80); [lia|].
  destruct (N.ltb_spec c 0x800); [lia|].
  destruct (N.ltb_spec c 0x10000); [lia|].
  destruct (N.leb_spec c 0x10FFFF); [|lia].
  rewrite lead4, !cont6 by lia. rewrite shiftr_12, shiftr_6.
  f_equal; f_equal; [|f_equal; [|f_equal; [|f_equal]]]; apply octet_eq; subst c;
    destruct (N.eqb_spec (Byte.to_N b0) 0xF0), (N.eqb_spec (Byte.to_N b0) 0xF4); divmod.
Qed.

Lemma ok_inj {A} (a b : A) : Ok a = Ok b -> a = b.
Proof. intros H. now injection H. Qed.

Lemma encode_decode_bounded (n : nat) :
  forall bs, (length bs <= n)%nat ->
  forall pos t, decode_from pos bs = Ok t -> forall p, encode_from p t = Ok bs.
Proof.
  induction n as [|n IH]; intros bs Hlen pos t H p.
  { destruct bs; [|simpl in Hlen; lia]. apply ok_inj in H. now subst t. }
  destruct bs as [|b0 r0]; [apply ok_inj in H; now subst t|].
  cbn [length] in Hlen. cbn [decode_from] in H.
  destruct (N.ltb_spec (Byte.to_N b0) 0x80) as [E1|E1].
  { destruct (decode_from (S pos) r0) as [tl|] eqn:Ed; [|discriminate].
    apply ok_inj in H. subst t. cbn [encode_from].
    rewrite utf8_char_of_bytes_1 by exact E1.
    rewrite (IH r0 ltac:(lia) _ _ Ed). reflexivity. }
  destruct (in_range 0xC2 0xDF b0) eqn:E2.
  { apply in_range_iff in E2.
    destruct r0 as [|b1 r1]; [discriminate|].
    destruct (in_range 0x80 0xBF b1) eqn:E3; [|discriminate].
    apply in_range_iff in E3.
    destruct (decode_from (2 + pos) r1) as [tl|] eqn:Ed; [|discriminate].
    apply ok_inj in H. subst t. cbn [encode_from].
    rewrite land_1F, low6_mod, join2 by (apply N.mod_lt; lia).
    rewrite utf8_char_of_bytes_2 by assumption.
    cbn [length] in Hlen.
    rewrite (IH r1 ltac:(lia) _ _ Ed). reflexivity. }
  destruct (in_range 0xE0 0xEF b0) eqn:E3.
  { apply in_range_iff in E3.
    destruct r0 as [|b1 [|b2 r2]]; try discriminate.
    destruct (in_range _ _ b1) eqn:E4; [|discriminate].
    destruct (in_range 0x80 0xBF b2) eqn:E5; [|discriminate].
    apply in_range_iff in E5. cbn [andb] in H.
    destruct (decode_from (3 + pos) r2) as [tl|] eqn:Ed; [|discriminate].
    apply ok_inj in H. subst t. cbn [encode_from].
    rewrite land_0F, !low6_mod, join3 by (apply N.mod_lt; lia).
    rewrite utf8_char_of_bytes_3 by assumption.
    cbn [length] in Hlen.
    rewrite (IH r2 ltac:(lia) _ _ Ed). reflexivity. }
  destruct (in_range 0xF0 0xF4 b0) eqn:E4; [|discriminate].
  apply in_range_iff in E4.
  destruct r0 as [|b1 [|b2 [|b3 r3]]]; try discriminate.
  destruct (in_range _ _ b1) eqn:E5; [|discriminate].
  destruct (in_range 0x80 0xBF b2) eqn:E6; [|discriminate].
  destruct (in_range 0x80 0xBF b3) eqn:E7; [|discriminate].
  apply in_range_iff in E6, E7. cbn [andb] in H.
  destruct (decode_from (4 + pos) r3) as [tl|] eqn:Ed; [|discriminate].
  apply ok_inj in H. subst t. cbn [encode_from].
  rewrite land_07, !low6_mod, join4 by (apply N.mod_lt; lia).
  rewrite utf8_char_of_bytes_4 by assumption.
  cbn [length] in Hlen.
  rewrite (IH r3 ltac:(lia) _ _ Ed). reflexivity.
Qed.

Lemma encode_decode (bs : bytes) (t : str) : decode bs = Ok t -> encode t = Ok bs.
Proof. intros H. exact (encode_decode_bounded (length bs) bs (le_n _) 0%nat t H 0%nat). Qed.

Lemma decode_encode (t : str) (bs : bytes) : encode t = Ok bs -> decode bs = Ok t.
Proof. intros H. exact (decode_encode_from t 0%nat bs H 0%nat). Qed.

Example b64decode_examples :
  b64decode (blit "TWFu") = Ok (blit "Man")
  /\ b64decode (blit "bGlnaHQgd29yay4=") = Ok (blit "light work.")
  /\ b64decode (blit "bGlnaHQgd29yaw==") = Ok (blit "light work")
  /\ b64decode (blit "AA=A=") = Ok [Byte.x00; Byte.x00]
  /\ b64decode (blit "AA==AAAA") = Ok [Byte.x00]
  /\ b64decode (blit "A") = Raise (OtherError (lit "Invalid base64-encoded string"))
  /\ b64decode (blit "AA=A") = Raise (OtherError (lit "Incorrect padding"))
  /\ b64decode (blit "T W-F_u=") = Ok (blit "Man").
Proof. repeat split. Qed.

(** every digit is read back as its value, and none is the padding byte *)
Lemma b64_digit_value_nat (k : nat) :
  (k < 64)%nat ->
  b64_value (b64_digit (N.of_nat k)) = Some (N.of_nat k)
  /\ Byte.eqb (b64_digit (N.of_nat k)) b64_pad = false.
Proof.
  intros H. do 64 (destruct k as [|k]; [split; reflexivity|]). lia.
Qed.

Lemma b64_digit_value (n : N) :
  n < 64 ->
  b64_value (b64_digit n) = Some n /\ Byte.eqb (b64_digit n) b64_pad = false.
Proof.
  intros H. rewrite <- (N2Nat.id n). apply b64_digit_value_nat. lia.
Qed.

Lemma a2b_digit (quad_pos : nat) (leftchar : N) (pads : nat) (n : N) (rest : bytes) :
  n < 64 ->
  a2b_base64 quad_pos leftchar pads (b64_digit n :: rest)
  = match quad_pos with
    | O => a2b_base64 1 n 0 rest
    | S O =>
        emit (octet (N.lor (N.shiftl leftchar 2) (N.shiftr n 4)))
          (a2b_base64 2 (N.land n 0x0F) 0 rest)
    | S (S O) =>
        emit (octet (N.lor (N.shiftl leftchar 4) (N.shiftr n 2)))
          (a2b_base64 3 (N.land n 0x03) 0 rest)
    | _ =>
        emit (octet (N.lor (N.shiftl leftchar 6) n))
          (a2b_base64 0 0 0 rest)
    end.
Proof.
  intros H. destruct (b64_digit_value n H) as [Hv Hp].
  cbn [a2b_base64]. now rewrite Hp, Hv.
Qed.

Lemma shiftr_2 c : N.shiftr c 2 = c / 4. Proof. apply N.shiftr_div_pow2. Qed.
Lemma shiftr_4 c : N.shiftr c 4 = c / 16. Proof. apply N.shiftr_div_pow2. Qed.
Lemma land_03 c : N.land c 3 = c mod 4. Proof. apply (N.land_ones c 2). Qed.
Lemma land_15 c : N.land c 15 = c mod 16. Proof. apply (N.land_ones c 4). Qed.
Lemma land_63 c : N.land c 63 = c mod 64. Proof. apply (N.land_ones c 6). Qed.
Lemma shl_lor (a n b : N) (k : N) : k = 2 ^ n -> b < k -> N.lor (N.shiftl a n) b = a * k + b.
Proof. intros -> H. now apply lor_shiftl_add. Qed.
Lemma shl_0 (a n : N) (k : N) : k = 2 ^ n -> N.shiftl a n = a * k.
Proof. intros ->. apply N.shiftl_mul_pow2. Qed.

(** decoding the digits of one full group gives its three octets *)
Lemma a2b_group (a b c : Byte.byte) (pads : nat) (rest : bytes) :
  a2b_base64 0 0 pads (b64encode (a :: b :: c :: rest))
  = emit a (emit b (emit c (a2b_base64 0 0 0 (b64encode rest)))).
Proof.
  set (x := Byte.to_N a). set (y := Byte.to_N b). set (z := Byte.to_N c).
  assert (Hx : x <= 255) by apply Byte.to_N_bounded.
  assert (Hy : y <= 255) by apply Byte.to_N_bounded.
  assert (Hz : z <= 255) by apply Byte.to_N_bounded.
  change (b64encode (a :: b :: c :: rest))
    with (b64_digit (N.shiftr x 2)
          :: b64_digit (N.lor (N.shiftl (N.land x 3) 4) (N.shiftr y 4))
          :: b64_digit (N.lor (N.shiftl (N.land y 15) 2) (N.shiftr z 6))
          :: b64_digit (N.land z 63) :: b64encode rest).
  rewrite shiftr_2, shiftr_4, shiftr_6, land_03, land_15, land_63.
  rewrite (shl_lor (x mod 4) 4 (y / 16) 16), (shl_lor (y mod 16) 2 (z / 64) 4)
    by (try reflexivity; divmod).
  rewrite a2b_digit by divmod.
  rewrite a2b_digit by divmod.
  rewrite a2b_digit by divmod.
  rewrite a2b_digit by divmod.
  rewrite shiftr_2, shiftr_4, land_15, land_03.
  rewrite (shl_lor (x / 4) 2 _ 4), (shl_lor _ 4 _ 16), (shl_lor _ 6 _ 64)
    by (try reflexivity; divmod).
  f_equal; [|f_equal; [|f_equal]]; apply octet_eq; subst x y z; divmod.
Qed.

Lemma a2b_pad (quad_pos : nat) (leftchar : N) (pads : nat) (rest : bytes) :
  a2b_base64 quad_pos leftchar pads (b64_pad :: rest)
  = if (2 <=? quad_pos)%nat then
      if (4 <=? quad_pos + S pads)%nat then Ok []
      else a2b_base64 quad_pos leftchar (S pads) rest
    else a2b_base64 quad_pos leftchar pads rest.
Proof. reflexivity. Qed.

Lemma a2b_tail1 (a : Byte.byte) (pads : nat) :
  a2b_base64 0 0 pads (b64encode [a]) = Ok [a].
Proof.
  set (x := Byte.to_N a).
  assert (Hx : x <= 255) by apply Byte.to_N_bounded.
  change (b64encode [a])
    with [b64_digit (N.shiftr x 2); b64_digit (N.shiftl (N.land x 3) 4);
          b64_pad; b64_pad].
  rewrite shiftr_2, land_03, (shl_0 _ 4 16) by reflexivity.
  rewrite a2b_digit by divmod.
  rewrite a2b_digit by divmod.
  rewrite !a2b_pad. cbn [Nat.leb Nat.add emit result_bind].
  rewrite shiftr_4, (shl_lor (x / 4) 2 _ 4) by (try reflexivity; divmod).
  f_equal. f_equal. apply octet_eq. subst x. divmod.
Qed.

Lemma a2b_tail2 (a b : Byte.byte) (pads : nat) :
  a2b_base64 0 0 pads (b64encode [a; b]) = Ok [a; b].
Proof.
  set (x := Byte.to_N a). set (y := Byte.to_N b).
  assert (Hx : x <= 255) by apply Byte.to_N_bounded.
  assert (Hy : y <= 255) by apply Byte.to_N_bounded.
  change (b64encode [a; b])
    with [b64_digit (N.shiftr x 2);
          b64_digit (N.lor (N.shiftl (N.land x 3) 4) (N.shiftr y 4));
          b64_digit (N.shiftl (N.land y 15) 2); b64_pad].
  rewrite shiftr_2, shiftr_4, land_03, land_15, (shl_0 _ 2 4) by reflexivity.
  rewrite (shl_lor (x mod 4) 4 (y / 16) 16) by (try reflexivity; divmod).
  rewrite a2b_digit by divmod.
  rewrite a2b_digit by divmod.
  rewrite a2b_digit by divmod.
  rewrite a2b_pad. cbn [Nat.leb Nat.add emit result_bind].
  rewrite shiftr_2, shiftr_4, land_15.
  rewrite (shl_lor (x / 4) 2 _ 4), (shl_lor _ 4 _ 16) by (try reflexivity; divmod).
  f_equal. f_equal; [|f_equal]; apply octet_eq; subst x y; divmod.
Qed.

(** groups of three: the induction the encoder follows *)
Lemma triples_ind (P : bytes -> Prop) :
  P [] -> (forall a, P [a]) -> (forall a b, P [a; b]) ->
  (forall a b c rest, P rest -> P (a :: b :: c :: rest)) ->
  forall bs, P bs.
Proof.
  intros H0 H1 H2 H3.
  fix IH 1. intros [|a [|b [|c rest]]];
    [exact H0 | apply H1 | apply H2 | apply H3, IH].
Qed.

Lemma b64decode_b64encode (bs : bytes) : b64decode (b64encode bs) = Ok bs.
Proof.
  unfold b64decode. induction bs as [|a|a b|a b c rest IH] using triples_ind.
  - reflexivity.
  - apply a2b_tail1.
  - apply a2b_tail2.
  - rewrite a2b_group, IH. reflexivity.
Qed.

Lemma b64encode_inj (x y : bytes) : b64encode x = b64encode y -> x = y.
Proof.
  intros H. apply (f_equal b64decode) in H.
  rewrite !b64decode_b64encode in H. now injection H.
Qed.

Lemma b64encode_length (bs : bytes) :
  length (b64encode bs) = (4 * ((length bs + 2) / 3))%nat.
Proof.
  induction bs as [|a|a b|a b c rest IH] using triples_ind; try reflexivity.
  change (b64encode (a :: b :: c :: rest)) with
    (b64_digit (N.shiftr (Byte.to_N a) 2)
     :: b64_digit (N.lor (N.shiftl (N.land (Byte.to_N a) 3) 4) (N.shiftr (Byte.to_N b) 4))
     :: b64_digit (N.lor (N.shiftl (N.land (Byte.to_N b) 15) 2) (N.shiftr (Byte.to_N c) 6))
     :: b64_digit (N.land (Byte.to_N c) 63) :: b64encode rest).
  cbn [length]. rewrite IH.
  replace (S (S (S (length rest))) + 2)%nat with (1 * 3 + (length rest + 2))%nat by lia.
  rewrite Nat.div_add_l by lia. lia.
Qed.

Lemma b64_digit_in (n : N) : In (b64_digit n) (b64_pad :: b64_alphabet).
Proof.
  unfold b64_digit.
  destruct (nth_in_or_default (N.to_nat n) b64_alphabet b64_pad) as [H|H].
  - now right.
  - left. now rewrite H.
Qed.

Lemma b64encode_digits (bs : bytes) :
  Forall (fun b => In b (b64_pad :: b64_alphabet)) (b64encode bs).
Proof.
  induction bs as [|a|a b|a b c rest IH] using triples_ind;
    repeat (apply Forall_cons; [apply b64_digit_in || now left|]); auto.
Qed.

Lemma b64_symbols_ascii (b : Byte.byte) :
  In b (b64_pad :: b64_alphabet) -> Byte.to_N b < 0x80.
Proof.
  intros H.
  assert (A : forallb (fun x => Byte.to_N x <? 0x80) (b64_pad :: b64_alphabet) = true)
    by reflexivity.
  rewrite forallb_forall in A. apply N.ltb_lt. now apply A.
Qed.

Lemma decode_from_ascii (bs : bytes) :
  Forall (fun b => Byte.to_N b < 0x80) bs ->
  forall pos, decode_from pos bs = Ok (List.map Byte.to_N bs).
Proof.
  induction 1 as [|b rest Hb _ IH]; intros pos; [reflexivity|].
  rewrite decode_from_1 by exact Hb. rewrite IH. reflexivity.
Qed.

Lemma decode_b64encode (bs : bytes) :
  decode (b64encode bs) = Ok (List.map Byte.to_N (b64encode bs)).
Proof.
  apply decode_from_ascii.
  eapply Forall_impl; [|apply b64encode_digits].
  apply b64_symbols_ascii.
Qed.


Lemma forallb_firstn {A} (f : A -> bool) (n : nat) (l : list A) :
  forallb f l = true -> forallb f (firstn n l) = true.
Proof.
  revert n. induction l as [|x l IH]; intros [|n]; simpl; auto.
  rewrite !andb_true_iff. intros [? ?]. auto.
Qed.

Lemma to_N_inj (a b : Byte.byte) : Byte.to_N a = Byte.to_N b -> a = b.
Proof.
  intros H. rewrite <- (octet_to_N a), <- (octet_to_N b). now rewrite H.
Qed.

Lemma map_to_N_inj (a b : bytes) :
  List.map Byte.to_N a = List.map Byte.to_N b -> a = b.
Proof.
  revert b. induction a as [|x a IH]; intros [|y b] H; try discriminate; [reflexivity|].
  cbn [List.map] in H. injection H as Hx Hr. f_equal; [now apply to_N_inj|now apply IH].
Qed.

(** the encoder of the script against RFC 3629, one character *)
Lemma utf8_char_rfc (c : char) (bs : bytes) :
  utf8_char c = Some bs -> List.map Byte.to_N bs = utf8_rfc3629_char c.
Proof.
  unfold utf8_char, utf8_rfc3629_char. intros H.
  destruct (N.ltb_spec c 0x80) as [H1|H1].
  { apply some_inj in H; subst bs. cbn [List.map]. now rewrite to_N_octet by lia. }
  destruct (N.ltb_spec c 0x800) as [H2|H2].
  { apply some_inj in H; subst bs. cbn [List.map].
    rewrite lead2, cont6 by lia. now rewrite !to_N_octet by divmod. }
  destruct (N.ltb_spec c 0x10000) as [H3|H3].
  { destruct ((0xD800 <=? c) && (c <=? 0xDFFF)); [discriminate|].
    apply some_inj in H; subst bs. cbn [List.map].
    rewrite lead3, !cont6 by lia. rewrite shiftr_6.
    now rewrite !to_N_octet by divmod. }
  destruct (N.leb_spec c 0x10FFFF) as [H4|H4]; [|discriminate].
  apply some_inj in H; subst bs. cbn [List.map].
  rewrite lead4, !cont6 by lia. rewrite shiftr_12, shiftr_6.
  now rewrite !to_N_octet by divmod.
Qed.

Lemma encode_from_rfc (s : str) :
  forall pos bs, encode_from pos s = Ok bs ->
  List.map Byte.to_N bs = utf8_rfc3629 s.
Proof.
  induction s as [|c rest IH]; intros pos bs H.
  - apply ok_inj in H. now subst bs.
  - cbn [encode_from] in H.
    destruct (utf8_char c) as [b|] eqn:Ec; [|discriminate].
    destruct (encode_from (S pos) rest) as [tl|] eqn:Er; [|discriminate].
    apply ok_inj in H. subst bs.
    unfold utf8_rfc3629. cbn [flat_map]. rewrite map_app.
    now rewrite (utf8_char_rfc c b Ec), (IH _ _ Er).
Qed.

Lemma encode_rfc (s : str) (bs : bytes) :
  encode s = Ok bs -> List.map Byte.to_N bs = utf8_rfc3629 s.
Proof. apply encode_from_rfc. Qed.

(** the digits of the script against table 1 *)
Lemma b64_digit_rfc_nat (k : nat) :
  (k < 64)%nat ->
  Byte.to_N (b64_digit (N.of_nat k)) = base64_rfc4648_digit (N.of_nat k).
Proof. intros H. do 64 (destruct k as [|k]; [reflexivity|]). lia. Qed.

Lemma b64_digit_rfc (n : N) :
  n < 64 -> Byte.to_N (b64_digit n) = base64_rfc4648_digit n.
Proof. intros H. rewrite <- (N2Nat.id n). apply b64_digit_rfc_nat. lia. Qed.

Lemma b64encode_rfc (bs : bytes) :
  List.map Byte.to_N (b64encode bs) = base64_rfc4648 (List.map Byte.to_N bs).
Proof.
  induction bs as [|a|a b|a b c rest IH] using triples_ind.
  - reflexivity.
  - set (x := Byte.to_N a).
    assert (Hx : x <= 255) by apply Byte.to_N_bounded.
    change (List.map Byte.to_N (b64encode [a]))
      with [Byte.to_N (b64_digit (N.shiftr x 2));
            Byte.to_N (b64_digit (N.shiftl (N.land x 3) 4)); 61; 61].
    change (List.map Byte.to_N [a]) with [x]. cbn [base64_rfc4648].
    rewrite shiftr_2, land_03, (shl_0 _ 4 16) by reflexivity.
    rewrite !b64_digit_rfc by divmod.
    f_equal; [|f_equal]; f_equal; divmod.
  - set (x := Byte.to_N a). set (y := Byte.to_N b).
    assert (Hx : x <= 255) by apply Byte.to_N_bounded.
    assert (Hy : y <= 255) by apply Byte.to_N_bounded.
    change (List.map Byte.to_N (b64encode [a; b]))
      with [Byte.to_N (b64_digit (N.shiftr x 2));
            Byte.to_N (b64_digit (N.lor (N.shiftl (N.land x 3) 4) (N.shiftr y 4)));
            Byte.to_N (b64_digit (N.shiftl (N.land y 15) 2)); 61].
    change (List.map Byte.to_N [a; b]) with [x; y]. cbn [base64_rfc4648].
    rewrite shiftr_2, shiftr_4, land_03, land_15, (shl_0 _ 2 4) by reflexivity.
    rewrite (shl_lor (x mod 4) 4 (y / 16) 16) by (try reflexivity; divmod).
    rewrite !b64_digit_rfc by divmod.
    f_equal; [|f_equal; [|f_equal]]; f_equal; divmod.
  - set (x := Byte.to_N a). set (y := Byte.to_N b). set (z := Byte.to_N c).
    assert (Hx : x <= 255) by apply Byte.to_N_bounded.
    assert (Hy : y <= 255) by apply Byte.to_N_bounded.
    assert (Hz : z <= 255) by apply Byte.to_N_bounded.
    change (List.map Byte.to_N (b64encode (a :: b :: c :: rest)))
      with (Byte.to_N (b64_digit (N.shiftr x 2))
            :: Byte.to_N (b64_digit (N.lor (N.shiftl (N.land x 3) 4) (N.shiftr y 4)))
            :: Byte.to_N (b64_digit (N.lor (N.shiftl (N.land y 15) 2) (N.shiftr z 6)))
            :: Byte.to_N (b64_digit (N.land z 63))
            :: List.map Byte.to_N (b64encode rest)).
    change (List.map Byte.to_N (a :: b :: c :: rest))
      with (x :: y :: z :: List.map Byte.to_N rest).
    cbn [base64_rfc4648]. rewrite IH.
    rewrite shiftr_2, shiftr_4, shiftr_6, land_03, land_15, land_63.
    rewrite (shl_lor (x mod 4) 4 (y / 16) 16), (shl_lor (y mod 16) 2 (z / 64) 4)
      by (try reflexivity; divmod).
    rewrite !b64_digit_rfc by divmod.
    f_equal; [|f_equal; [|f_equal; [|f_equal]]]; f_equal; divmod.
Qed.

Lemma blit_lit (s : String.string) : List.map Byte.to_N (blit s) = lit s.
Proof.
  unfold blit, lit. rewrite map_map. apply map_ext. intros a.
  destruct a as [[] [] [] [] [] [] [] []]; reflexivity.
Qed.

(** The contract can only hold on arguments that can be encoded. *)
Lemma returns_mock_audio_scalar (text voice : str) :
  returns_mock_audio text voice ->
  forallb is_scalar (slice_to 50 text) = true
  /\ forallb is_scalar voice = true.
Proof.
  intros H. destruct (H (mkEnv 0 [])) as (t & v & Ht & Hv & _).
  split; apply encode_scalar; eauto.
Qed.



(** Outside that scope, on a text with a lone surrogate, the call raises
    [UnicodeEncodeError] instead of returning. *)
Lemma synthesize_surrogate_raises :
  ~ returns_mock_audio [0xD800] (lit "Lisa")
  /\ forall e, fst (synthesize [0xD800] (lit "Lisa") e)
               = Raise (UnicodeEncodeError 0xD800 0).
Proof.
  split.
  - intros H. destruct (H (mkEnv 0 [])) as [t [v [Ht _]]]. discriminate.
  - intros e. rewrite synthesize_run. reflexivity.
Qed.

(** The three labels of the voice box can always be encoded. *)
Lemma voice_name_scalar (v : Voice) : forallb is_scalar (voice_name v) = true.
Proof. destruct v; reflexivity. Qed.

(** Only the first 50 characters count. *)
Lemma synthesize_first_50 (text more voice : str) (e : Env) :
  length text = 50%nat ->
  synthesize (text ++ more) voice e = synthesize text voice e.
Proof.
  intros H. rewrite !synthesize_run. unfold slice_to.
  rewrite firstn_app, H, Nat.sub_diag, firstn_O, app_nil_r.
  rewrite <- H, firstn_all. reflexivity.
Qed.

Example synthesize_hi_lisa (e : Env) :
  fst (synthesize (lit "Hi") (lit "Lisa") e)
  = Ok (blit "TU9DS19BVURJT19EQVRBX0hpX0xpc2E=").
Proof. rewrite synthesize_run. vm_compute. reflexivity. Qed.

(** C6: two calls with the same text and voice end alike, in whatever
    world each is made; the pause shows on the clock and nowhere else. *)
Theorem synthesize_deterministic (text voice : str) (e1 e2 : Env) :
  fst (synthesize text voice e1) = fst (synthesize text voice e2)
  /\ clock (snd (synthesize text voice e1)) = clock e1 + 1
  /\ page (snd (synthesize text voice e1)) = page e1.
Proof. rewrite !synthesize_run. cbn [fst snd clock page]. auto. Qed.

(** ** The session *)

Section Handlers.

Context {services : Services}.
Variable w : Widgets.

(** The select boxes write the two selections and nothing else. *)
Lemma sidebar_session (s : SessionState) (e : Env) :
  let s' := session_after (sidebar w) s e in
  original_text s' = original_text s
  /\ rewritten_text s' = rewritten_text s
  /\ audio_data s' = audio_data s.
Proof.
  unfold_script.
  destruct (list_index (selected_voice s) voice_options); script_simpl; [|auto].
  destruct (list_index (selected_tone s) tone_options); script_simpl; [|auto].
  destruct (dict_get tone_descriptions (tone_name (tone_choice w))); script_simpl; auto.
Qed.

(** The input column leaves the session alone or replaces the original
    text by a different one, and then clears what was derived. *)
Lemma input_column_session (s : SessionState) (e : Env) :
  let s' := session_after (input_column w) s e in
  s' = s
  \/ (original_text s' <> original_text s
      /\ s' = mkSession (original_text s') [] (selected_tone s) (selected_voice s) None).
Proof.
  unfold_script.
  destruct (input_method w) as [text_input|[f|]]; script_simpl; auto.
  - destruct (str_eqb text_input (original_text s)) eqn:E; script_simpl; auto.
    right. split; [|reflexivity].
    intros ->. now rewrite str_eqb_refl in E.
  - destruct (process_uploaded_file f e) as [[file_content|ex] e1]; script_simpl; auto.
    destruct (truthy file_content); script_simpl; auto.
    destruct (str_eqb file_content (original_text s)) eqn:E; script_simpl; auto.
    right. split; [|reflexivity].
    intros ->. now rewrite str_eqb_refl in E.
Qed.

(** The rewrite handler, case by case. *)
Lemma rewrite_column_run (s : SessionState) (e : Env) :
  rewrite_column w (s, e)
  = if truthy (original_text s) then
      if rewrite_button w then
        match llm_rewrite_text (original_text s) (selected_tone s) e with
        | (Ok r, e1) =>
            (Ok tt, (set_rewritten_text r s,
                     mkEnv (clock e1)
                       (Success (lit "Text successfully adapted!") :: page e1)))
        | (Raise ex, e1) =>
            (Ok tt, (s, mkEnv (clock e1)
                          (Error (lit "Error processing text: ") ex :: page e1)))
        end
      else (Ok tt, (s, e))
    else (Ok tt, (s, mkEnv (clock e)
                       (Info (0x1F446 :: lit " Please enter or upload text to begin")
                        :: page e))).
Proof.
  unfold_script.
  destruct (truthy (original_text s)); [|reflexivity].
  destruct (rewrite_button w); [script_simpl|reflexivity].
  destruct (llm_rewrite_text (original_text s) (selected_tone s) e) as [[r|ex] e1];
    reflexivity.
Qed.

(** The synthesis handler, case by case. *)
Lemma audio_section_run (s : SessionState) (e : Env) :
  audio_section w (s, e)
  = if truthy (rewritten_text s) then
      if audio_button w then
        match tts_synthesize (rewritten_text s) (selected_voice s) e with
        | (Ok audio_bytes, e1) =>
            (Ok tt, (set_audio_data (Some audio_bytes) s,
                     mkEnv (clock e1)
                       (Success (lit "Audio generated successfully!") :: page e1)))
        | (Raise ex, e1) =>
            (Ok tt, (s, mkEnv (clock e1)
                          (Error (lit "Error generating audio: ") ex :: page e1)))
        end
      else (Ok tt, (s, e))
    else (Ok tt, (s, e)).
Proof.
  unfold_script.
  destruct (truthy (rewritten_text s)); [|reflexivity].
  destruct (audio_button w); [script_simpl|reflexivity].
  destruct (tts_synthesize (rewritten_text s) (selected_voice s) e) as [[b|ex] e1];
    reflexivity.
Qed.

Lemma rewrite_column_session (s : SessionState) (e : Env) :
  let s' := session_after (rewrite_column w) s e in
  s' = s
  \/ (rewrite_button w = true /\ truthy (original_text s) = true
      /\ exists r, s' = set_rewritten_text r s).
Proof.
  unfold session_after. rewrite rewrite_column_run.
  destruct (truthy (original_text s)); [|now left].
  destruct (rewrite_button w); [|now left].
  destruct (llm_rewrite_text _ _ e) as [[r|ex] e1]; [|now left].
  right. repeat split. exists r. reflexivity.
Qed.

Lemma audio_section_session (s : SessionState) (e : Env) :
  let s' := session_after (audio_section w) s e in
  s' = s
  \/ (audio_button w = true /\ truthy (rewritten_text s) = true
      /\ exists b, s' = set_audio_data (Some b) s).
Proof.
  unfold session_after. rewrite audio_section_run.
  destruct (truthy (rewritten_text s)); [|now left].
  destruct (audio_button w); [|now left].
  destruct (tts_synthesize _ _ e) as [[b|ex] e1]; [|now left].
  right. repeat split. exists b. reflexivity.
Qed.

Lemma handler_effect (a : action) (s : SessionState) (e : Env) :
  effect_of w a s (session_after (handler a w) s e).
Proof.
  destruct a; simpl.
  - apply sidebar_session.
  - apply input_column_session.
  - apply rewrite_column_session.
  - apply audio_section_session.
Qed.

Lemma reach_effect (a : action) (s s' : SessionState) :
  reach a w s s' -> effect_of w a s s'.
Proof.
  intros [->|[e ->]]; [|apply handler_effect].
  destruct a; simpl; auto.
Qed.

(** A run of [main] is the four handlers one after the other, each
    starting from the session the one before left. *)
Lemma main_steps (s : SessionState) (e : Env) :
  exists s1 s2 s3,
    reach Select w s s1 /\ reach Input w s1 s2 /\ reach Rewrite w s2 s3
    /\ reach Synthesize w s3 (session_after (main w) s e).
Proof.
  unfold main, session_after, bind, reach, handler. cbv beta.
  destruct (sidebar w (s, e)) as [[[]|ex1] [s1 e1]] eqn:E1; cbn [fst snd].
  2:{ exists s1, s1, s1. repeat split; auto.
      right. exists e. unfold session_after; now rewrite E1. }
  destruct (input_column w (s1, e1)) as [[[]|ex2] [s2 e2]] eqn:E2; cbn [fst snd].
  2:{ exists s1, s2, s2. repeat split; auto.
      - right. exists e. unfold session_after; now rewrite E1.
      - right. exists e1. unfold session_after; now rewrite E2. }
  destruct (rewrite_column w (s2, e2)) as [[[]|ex3] [s3 e3]] eqn:E3; cbn [fst snd].
  2:{ exists s1, s2, s3. repeat split; auto.
      - right. exists e. unfold session_after; now rewrite E1.
      - right. exists e1. unfold session_after; now rewrite E2.
      - right. exists e2. unfold session_after; now rewrite E3. }
  exists s1, s2, s3. repeat split.
  - right. exists e. unfold session_after; now rewrite E1.
  - right. exists e1. unfold session_after; now rewrite E2.
  - right. exists e2. unfold session_after; now rewrite E3.
  - right. exists e3. reflexivity.
Qed.

End Handlers.

Section Runs.

Context {services : Services}.
Variable w : Widgets.

Lemma main_effect (s : SessionState) (e : Env) :
  exists s1 s2 s3,
    effect_of w Select s s1 /\ effect_of w Input s1 s2
    /\ effect_of w Rewrite s2 s3
    /\ effect_of w Synthesize s3 (session_after (main w) s e).
Proof.
  destruct (main_steps w s e) as (s1 & s2 & s3 & H1 & H2 & H3 & H4).
  exists s1, s2, s3.
  split; [|split; [|split]]; now apply reach_effect.
Qed.

(** A run that changes the original text ends, unless the rewrite button
    is pressed in the same run, with nothing derived from the old text. *)
Lemma main_replacement_resets (s : SessionState) (e : Env) :
  let s' := session_after (main w) s e in
  original_text s' <> original_text s ->
  rewrite_button w = false ->
  rewritten_text s' = [] /\ audio_data s' = None.
Proof.
  intros s'. subst s'.
  destruct (main_effect s e) as (s1 & s2 & s3 & (Ho & Hr & Ha) & H2 & H3 & H4).
  set (s' := session_after (main w) s e) in *. clearbody s'.
  intros Hne Hbtn. simpl in H2, H3, H4.
  destruct H3 as [->|(Hb & _)]; [|congruence].
  destruct H2 as [->|(_ & Hs2)].
  - exfalso. apply Hne. rewrite <- Ho.
    destruct H4 as [->|(_ & _ & b & ->)]; reflexivity.
  - destruct H4 as [->|(_ & Ht & _)].
    + rewrite Hs2. auto.
    + rewrite Hs2 in Ht. discriminate.
Qed.

(** A run that keeps the original text and presses no synthesis button
    keeps the audio; without the rewrite button it keeps the rewritten
    text as well, whatever the two select boxes say. *)
Lemma main_keeps_audio (s : SessionState) (e : Env) :
  let s' := session_after (main w) s e in
  original_text s' = original_text s ->
  audio_button w = false ->
  audio_data s' = audio_data s
  /\ (rewrite_button w = false -> rewritten_text s' = rewritten_text s).
Proof.
  intros s'. subst s'.
  destruct (main_effect s e) as (s1 & s2 & s3 & (Ho & Hr & Ha) & H2 & H3 & H4).
  set (s' := session_after (main w) s e) in *. clearbody s'.
  intros Heq Hbtn. simpl in H2, H3, H4.
  destruct H4 as [->|(Hb & _)]; [|congruence].
  destruct H2 as [->|(Hne & Hs2)].
  - destruct H3 as [->|(Hb & _ & r & ->)]; simpl.
    + auto.
    + split; [auto|congruence].
  - exfalso. apply Hne. rewrite Ho, <- Heq.
    destruct H3 as [->|(_ & _ & r & ->)]; reflexivity.
Qed.

End Runs.

(** What the input column does when it is given a new text. *)
Lemma input_column_paste
    (w : Widgets) (t : str) (s : SessionState) (e : Env) :
  input_method w = PasteText t ->
  t <> original_text s ->
  session_after (input_column w) s e
  = mkSession t [] (selected_tone s) (selected_voice s) None.
Proof.
  intros Hw Hne. unfold_script. rewrite Hw. script_simpl.
  rewrite (str_eqb_neq _ _ Hne). reflexivity.
Qed.

Lemma input_column_upload
    (w : Widgets) (f : UploadedFile) (c : str) (s : SessionState) (e e1 : Env) :
  input_method w = UploadFile (Some f) ->
  process_uploaded_file f e = (Ok c, e1) ->
  c <> [] ->
  c <> original_text s ->
  session_after (input_column w) s e
  = mkSession c [] (selected_tone s) (selected_voice s) None.
Proof.
  intros Hw Hf Hc Hne. unfold_script. rewrite Hw. script_simpl.
  rewrite Hf. script_simpl. rewrite (str_eqb_neq _ _ Hne).
  destruct c; [contradiction|reflexivity].
Qed.

(** C4: a step that replaces the original text by a different one (only
    the input column can: with a pasted text that differs, or with an
    upload whose content is non-empty and differs) leaves the rewritten
    text empty and the audio absent, whatever they were before; and so
    does the whole run when the rewrite button is not pressed in it. *)
Theorem replacing_original_text_resets
    (services : Services) (a : action) (w : Widgets) (s : SessionState) (e : Env) :
  (original_text (session_after (handler a w) s e) <> original_text s ->
   a = Input
   /\ rewritten_text (session_after (handler a w) s e) = []
   /\ audio_data (session_after (handler a w) s e) = None)
  /\ (forall t,
        input_method w = PasteText t -> t <> original_text s ->
        session_after (input_column w) s e
        = mkSession t [] (selected_tone s) (selected_voice s) None)
  /\ (forall f c e1,
        input_method w = UploadFile (Some f) ->
        process_uploaded_file f e = (Ok c, e1) ->
        c <> [] -> c <> original_text s ->
        session_after (input_column w) s e
        = mkSession c [] (selected_tone s) (selected_voice s) None)
  /\ (original_text (session_after (main w) s e) <> original_text s ->
      rewrite_button w = false ->
      rewritten_text (session_after (main w) s e) = []
      /\ audio_data (session_after (main w) s e) = None).
Proof.
  split; [|split; [|split]].
  2: intros t Hw Hne; now apply input_column_paste.
  2: intros f c e1 Hw Hf Hc Hne; now apply (input_column_upload w f c s e e1).
  2: apply main_replacement_resets.
  pose proof (handler_effect w a s e) as H.
  set (s' := session_after (handler a w) s e) in *. clearbody s'.
  intros Hne. destruct a; simpl in H.
  - destruct H as (Ho & _). contradiction.
  - destruct H as [->|(_ & Hs')]; [contradiction|].
    rewrite Hs'. auto.
  - destruct H as [->|(_ & _ & r & ->)]; contradiction.
  - destruct H as [->|(_ & _ & b & ->)]; contradiction.
Qed.

(** C7: a step that neither replaces the original text nor synthesises
    keeps the audio bytes, and keeps the rewritten text too unless it is
    the rewrite itself; in particular the rewrite keeps the audio and a
    change of tone or voice keeps both. The same holds of a whole run. *)
Theorem audio_survives_other_steps
    (services : Services) (a : action) (w : Widgets) (s : SessionState) (e : Env) :
  (a <> Synthesize \/ audio_button w = false ->
   original_text (session_after (handler a w) s e) = original_text s ->
   audio_data (session_after (handler a w) s e) = audio_data s
   /\ (a <> Rewrite ->
       rewritten_text (session_after (handler a w) s e) = rewritten_text s))
  /\ audio_data (session_after (rewrite_column w) s e) = audio_data s
  /\ (audio_data (session_after (sidebar w) s e) = audio_data s
      /\ rewritten_text (session_after (sidebar w) s e) = rewritten_text s)
  /\ (original_text (session_after (main w) s e) = original_text s ->
      audio_button w = false ->
      audio_data (session_after (main w) s e) = audio_data s
      /\ (rewrite_button w = false ->
          rewritten_text (session_after (main w) s e) = rewritten_text s)).
Proof.
  split; [|split; [|split]].
  - pose proof (handler_effect w a s e) as H.
    set (s' := session_after (handler a w) s e) in *. clearbody s'.
    intros Ha Ho. destruct a; simpl in H.
    + destruct H as (_ & Hr & Hau). auto.
    + destruct H as [->|(Hne & _)]; [auto|contradiction].
    + destruct H as [->|(_ & _ & r & ->)]; split; auto; congruence.
    + destruct H as [->|(Hb & _)]; [auto|].
      destruct Ha; congruence.
  - destruct (rewrite_column_session w s e) as [->|(_ & _ & r & ->)]; reflexivity.
  - destruct (sidebar_session w s e) as (_ & Hr & Ha). auto.
  - apply main_keeps_audio.
Qed.

(** C8: when the rewrite call raises, the rewrite handler ends normally
    with the session as it was and an error notice on the page, and so
    does the synthesis handler when the synthesis call raises; the field
    is assigned only on the path where the call returned. *)
Theorem handlers_keep_state_on_error
    (services : Services) (w : Widgets) (s : SessionState) (e : Env) :
  (forall ex e1,
     truthy (original_text s) = true -> rewrite_button w = true ->
     llm_rewrite_text (original_text s) (selected_tone s) e = (Raise ex, e1) ->
     rewrite_column w (s, e)
     = (Ok tt, (s, mkEnv (clock e1)
                     (Error (lit "Error processing text: ") ex :: page e1))))
  /\ (forall ex e1,
        truthy (rewritten_text s) = true -> audio_button w = true ->
        tts_synthesize (rewritten_text s) (selected_voice s) e = (Raise ex, e1) ->
        audio_section w (s, e)
        = (Ok tt, (s, mkEnv (clock e1)
                        (Error (lit "Error generating audio: ") ex :: page e1))))
  /\ (forall r e1,
        truthy (original_text s) = true -> rewrite_button w = true ->
        llm_rewrite_text (original_text s) (selected_tone s) e = (Ok r, e1) ->
        session_after (rewrite_column w) s e = set_rewritten_text r s)
  /\ (forall b e1,
        truthy (rewritten_text s) = true -> audio_button w = true ->
        tts_synthesize (rewritten_text s) (selected_voice s) e = (Ok b, e1) ->
        session_after (audio_section w) s e = set_audio_data (Some b) s).
Proof.
  split; [|split; [|split]]; intros x e1 Ht Hb Hcall; unfold session_after.
  - now rewrite rewrite_column_run, Ht, Hb, Hcall.
  - now rewrite audio_section_run, Ht, Hb, Hcall.
  - now rewrite rewrite_column_run, Ht, Hb, Hcall.
  - now rewrite audio_section_run, Ht, Hb, Hcall.
Qed.

(** ** Uploads *)

Section Strip.

Lemma lstrip_nil (t : str) : lstrip t = [] <-> forallb isspace t = true.
Proof.
  induction t as [|c rest IH]; simpl; [tauto|].
  destruct (isspace c); simpl; [exact IH|].
  split; discriminate.
Qed.

(** What [lstrip] leaves starts with a character that is no space. *)
Lemma lstrip_head (t : str) (c : char) (rest : str) :
  lstrip t = c :: rest -> isspace c = false.
Proof.
  induction t as [|x t' IH]; simpl; [discriminate|].
  destruct (isspace x) eqn:E; [exact IH|].
  intros H. injection H as -> _. exact E.
Qed.

Lemma forallb_rev {A} (f : A -> bool) (l : list A) :
  forallb f (rev l) = forallb f l.
Proof.
  induction l as [|x l IH]; simpl; [reflexivity|].
  rewrite forallb_app, IH. simpl. rewrite andb_true_r. apply andb_comm.
Qed.

(** [strip] gives the empty text exactly on the texts that are empty or
    whitespace only. *)
Lemma strip_nil (t : str) : strip t = [] <-> forallb isspace t = true.
Proof.
  unfold strip, rstrip. split.
  - intros H. apply lstrip_nil.
    destruct (lstrip t) as [|c rest] eqn:E; [reflexivity|].
    apply (f_equal (@rev char)) in H. rewrite rev_involutive in H.
    change (rev []) with (@nil char) in H.
    apply lstrip_nil in H. rewrite forallb_rev in H. simpl in H.
    rewrite (lstrip_head t _ _ E) in H. discriminate.
  - intros H. apply lstrip_nil in H. rewrite H. reflexivity.
Qed.

End Strip.

Lemma lstrip_suffix (t : str) : exists p, t = p ++ lstrip t.
Proof.
  induction t as [|c rest [p IH]]; [now exists []|].
  simpl. destruct (isspace c); [|now exists []].
  exists (c :: p). simpl. now f_equal.
Qed.

Lemma lstrip_In (t : str) (c : char) : In c (lstrip t) -> In c t.
Proof.
  destruct (lstrip_suffix t) as [p E]. intros H. rewrite E.
  apply in_or_app. now right.
Qed.

Lemma strip_In (t : str) (c : char) : In c (strip t) -> In c t.
Proof.
  unfold strip, rstrip. intros H.
  apply in_rev in H. apply lstrip_In in H. apply in_rev in H.
  now apply lstrip_In.
Qed.

Lemma strip_keeps_scalar (t : str) :
  forallb is_scalar t = true -> forallb is_scalar (strip t) = true.
Proof.
  rewrite !forallb_forall. intros H c Hc. apply H. now apply strip_In.
Qed.

Lemma last_app_nonempty {A} (p l : list A) (d : A) :
  l <> [] -> last (p ++ l) d = last l d.
Proof.
  intros H. induction p as [|x p IH]; [reflexivity|].
  cbn [app]. destruct (p ++ l) eqn:E.
  - destruct p; [simpl in E; contradiction|discriminate].
  - rewrite <- IH. reflexivity.
Qed.

Lemma last_rev {A} (l : list A) (d : A) : last (rev l) d = hd d l.
Proof.
  destruct l as [|x l]; [reflexivity|]. simpl. now rewrite last_last.
Qed.

Lemma hd_rev {A} (l : list A) (d : A) : hd d (rev l) = last l d.
Proof. rewrite <- (rev_involutive l) at 2. now rewrite last_rev. Qed.

(** what [strip] returns neither starts nor ends with whitespace *)
Lemma strip_ends (t : str) (c : char) (rest : str) :
  strip t = c :: rest ->
  isspace c = false /\ isspace (last (c :: rest) c) = false.
Proof.
  unfold strip, rstrip. intros H.
  set (u := lstrip t) in *.
  set (v := lstrip (rev u)) in *.
  assert (Hv : v <> []).
  { intros E. rewrite E in H. discriminate. }
  assert (Hc : hd c (rev v) = c) by now rewrite H.
  assert (Hl : last (rev v) c = last (c :: rest) c) by now rewrite H.
  rewrite hd_rev in Hc. rewrite last_rev in Hl.
  split.
  - (* the first character is the last of v, which is the first of u *)
    destruct (lstrip_suffix (rev u)) as [p E]. fold v in E.
    assert (Hlast : last v c = hd c u).
    { rewrite <- (last_app_nonempty p v c Hv), <- E. apply last_rev. }
    destruct u as [|x u'] eqn:Eu.
    { subst v. simpl in Hv. contradiction. }
    rewrite <- Hc, Hlast. simpl. now apply (lstrip_head t x u').
  - rewrite <- Hl. destruct v as [|y v'] eqn:Ev; [contradiction|].
    simpl. now apply (lstrip_head (rev u) y v').
Qed.


Lemma lstrip_split (t : str) :
  exists p, t = p ++ lstrip t /\ forallb isspace p = true.
Proof.
  induction t as [|c rest (p & E & Hp)]; [now exists []|].
  simpl. destruct (isspace c) eqn:Ec; [|now exists []].
  exists (c :: p). simpl. rewrite Ec, Hp. split; [now f_equal|reflexivity].
Qed.

(** [strip] takes whitespace off both ends and nothing else *)
Lemma strip_split (t : str) :
  exists l tr,
    t = l ++ strip t ++ tr
    /\ forallb isspace l = true /\ forallb isspace tr = true.
Proof.
  destruct (lstrip_split t) as (l & El & Hl).
  destruct (lstrip_split (rev (lstrip t))) as (q & Eq & Hq).
  exists l, (rev q). unfold strip, rstrip.
  split; [|split; [exact Hl|now rewrite forallb_rev]].
  rewrite <- rev_app_distr, <- Eq, rev_involutive. exact El.
Qed.

Lemma isspace_table (c : char) :
  isspace c = true <-> In c whitespace_code_points.
Proof.
  unfold isspace, whitespace_code_points. cbn [In]. split.
  - intros H. cmp_to_prop;
      repeat match goal with
      | E : (_ =? _) = true |- _ => apply N.eqb_eq in E
      end; lia.
  - intros H.
    repeat (destruct H as [<-|H]; [reflexivity|]). contradiction.
Qed.

(** bytes that decode are the UTF-8 of the text they decode to *)
Lemma decode_rfc (bs : bytes) (t : str) :
  decode bs = Ok t ->
  forallb is_scalar t = true /\ List.map Byte.to_N bs = utf8_rfc3629 t.
Proof.
  intros H. apply encode_decode in H. split.
  - apply encode_scalar. eauto.
  - now apply encode_rfc.
Qed.

Lemma rfc_decode (bs : bytes) (t : str) :
  forallb is_scalar t = true ->
  List.map Byte.to_N bs = utf8_rfc3629 t ->
  decode bs = Ok t.
Proof.
  intros Ht H. apply encode_scalar in Ht as [bs' E].
  apply decode_encode. rewrite E. f_equal.
  apply map_to_N_inj. rewrite (encode_rfc _ _ E). now symmetry.
Qed.

(** [process_uploaded_file] never raises: it returns the stripped text of
    the upload, or the empty text and an error notice. *)
Lemma process_uploaded_file_run (f : UploadedFile) (e : Env) :
  process_uploaded_file f e
  = match decoded_content f with
    | Ok t => (Ok (strip t), e)
    | Raise ex =>
        (Ok [], mkEnv (clock e) (Error (lit "Error reading file: ") ex :: page e))
    end.
Proof.
  unfold process_uploaded_file, decoded_content, result_bind.
  unfold_script.
  destruct (read f) as [[b|t]|ex]; script_simpl; try reflexivity.
  destruct (decode b); reflexivity.
Qed.

Lemma blank_upload_returns_empty (f : UploadedFile) (e : Env) :
  blank_upload f -> fst (process_uploaded_file f e) = Ok [].
Proof.
  unfold blank_upload. rewrite process_uploaded_file_run.
  destruct (decoded_content f); [|reflexivity].
  intros H. apply strip_nil in H. simpl. now rewrite H.
Qed.

Lemma process_uploaded_file_text (f : UploadedFile) (e : Env) (bs : bytes) (t : str) :
  read f = Ok (CBytes bs) ->
  forallb is_scalar t = true ->
  List.map Byte.to_N bs = utf8_rfc3629 t ->
  exists r l tr,
    process_uploaded_file f e = (Ok r, e)
    /\ t = l ++ r ++ tr
    /\ forallb isspace l = true /\ forallb isspace tr = true
    /\ (forall c rest, r = c :: rest ->
        isspace c = false /\ isspace (last r c) = false).
Proof.
  intros Hr Ht Hb.
  destruct (strip_split t) as (l & tr & E & Hl & Htr).
  exists (strip t), l, tr.
  split; [|split; [exact E|split; [exact Hl|split; [exact Htr|]]]].
  - rewrite process_uploaded_file_run. unfold decoded_content. rewrite Hr.
    cbn [result_bind]. now rewrite (rfc_decode bs t Ht Hb).
  - intros c rest Hs. rewrite Hs. now apply (strip_ends t).
Qed.

Lemma process_uploaded_file_not_utf8 (f : UploadedFile) (e : Env) (bs : bytes) :
  read f = Ok (CBytes bs) ->
  (forall t, forallb is_scalar t = true -> List.map Byte.to_N bs <> utf8_rfc3629 t) ->
  exists ex,
    process_uploaded_file f e
    = (Ok [], mkEnv (clock e) (Error (lit "Error reading file: ") ex :: page e)).
Proof.
  intros Hr Hno. rewrite process_uploaded_file_run. unfold decoded_content.
  rewrite Hr. cbn [result_bind].
  destruct (decode bs) as [t|ex] eqn:E; [|now exists ex].
  apply decode_rfc in E as [Ht Hb]. now elim (Hno t Ht).
Qed.

Lemma input_column_blank_upload
    (w : Widgets) (f : UploadedFile) (s : SessionState) (e : Env) :
  input_method w = UploadFile (Some f) ->
  blank_upload f ->
  session_after (input_column w) s e = s.
Proof.
  intros Hw Hf. pose proof (blank_upload_returns_empty f e Hf) as H.
  unfold_script. rewrite Hw. script_simpl.
  destruct (process_uploaded_file f e) as [r e1]. simpl in H. subst r.
  reflexivity.
Qed.

(** ** Runs end normally *)

Lemma initialize_stored (s : SessionState) :
  initialize_session_state (stored s) = s.
Proof. destruct s; reflexivity. Qed.

(** A later run starts from the session the one before left. *)
Lemma script_stored {services : Services} (w : Widgets) (s : SessionState) (e : Env) :
  script w (stored s) e = main w (s, e).
Proof. unfold script. now rewrite initialize_stored. Qed.

Lemma initialize_fresh_valid : valid_selection fresh_session.
Proof. split; simpl; auto. Qed.

Lemma list_index_In (x : str) (options : list str) :
  In x options -> exists i, list_index x options = Ok i.
Proof.
  induction options as [|o rest IH]; simpl; [tauto|].
  destruct (str_eqb o x) eqn:E; [eauto|].
  intros [->|H]; [now rewrite str_eqb_refl in E|].
  destruct (IH H) as [i ->]. eauto.
Qed.

Lemma tone_description_found (t : Tone) :
  exists d, dict_get tone_descriptions (tone_name t) = Ok d.
Proof. destruct t; eexists; reflexivity. Qed.

Section Returns.

Context {services : Services}.
Variable w : Widgets.

Lemma sidebar_returns (s : SessionState) (e : Env) :
  valid_selection s ->
  exists e',
    sidebar w (s, e)
    = (Ok tt, (set_selected_tone (tone_name (tone_choice w))
                 (set_selected_voice (voice_name (voice_choice w)) s), e')).
Proof.
  intros [Hv Ht]. unfold_script.
  destruct (list_index_In _ _ Hv) as [i ->]. script_simpl.
  destruct (list_index_In _ _ Ht) as [j ->]. script_simpl.
  destruct (tone_description_found (tone_choice w)) as [d ->]. script_simpl.
  eauto.
Qed.

Lemma input_column_returns (s : SessionState) (e : Env) :
  outcome (input_column w) s e = Ok tt
  /\ selected_voice (session_after (input_column w) s e) = selected_voice s
  /\ selected_tone (session_after (input_column w) s e) = selected_tone s.
Proof.
  unfold_script.
  destruct (input_method w) as [text_input|[f|]]; script_simpl; auto.
  - destruct (str_eqb text_input (original_text s)); script_simpl; auto.
  - rewrite process_uploaded_file_run.
    destruct (decoded_content f) as [t|ex]; script_simpl; auto.
    destruct (truthy (strip t) && negb (str_eqb (strip t) (original_text s)));
      script_simpl; auto.
Qed.

Lemma rewrite_column_returns (s : SessionState) (e : Env) :
  outcome (rewrite_column w) s e = Ok tt
  /\ selected_voice (session_after (rewrite_column w) s e) = selected_voice s
  /\ selected_tone (session_after (rewrite_column w) s e) = selected_tone s.
Proof.
  unfold outcome, session_after. rewrite rewrite_column_run.
  destruct (truthy (original_text s)); [|auto].
  destruct (rewrite_button w); [|auto].
  destruct (llm_rewrite_text _ _ e) as [[r|ex] e1]; auto.
Qed.

Lemma audio_section_returns (s : SessionState) (e : Env) :
  outcome (audio_section w) s e = Ok tt
  /\ selected_voice (session_after (audio_section w) s e) = selected_voice s
  /\ selected_tone (session_after (audio_section w) s e) = selected_tone s.
Proof.
  unfold outcome, session_after. rewrite audio_section_run.
  destruct (truthy (rewritten_text s)); [|auto].
  destruct (audio_button w); [|auto].
  destruct (tts_synthesize _ _ e) as [[b|ex] e1]; auto.
Qed.

(** With selections taken from the select boxes, as every run leaves
    them, a run of [main] raises nothing, whatever the services do, and
    leaves the selections made in this run. *)
Lemma main_returns (s : SessionState) (e : Env) :
  valid_selection s ->
  outcome (main w) s e = Ok tt
  /\ selected_voice (session_after (main w) s e) = voice_name (voice_choice w)
  /\ selected_tone (session_after (main w) s e) = tone_name (tone_choice w).
Proof.
  intros Hs. destruct (sidebar_returns s e Hs) as [e1 E1].
  unfold main, outcome, session_after, bind. rewrite E1.
  set (s1 := set_selected_tone _ _).
  pose proof (input_column_returns s1 e1) as (O2 & V2 & T2).
  unfold outcome, session_after in O2, V2, T2.
  destruct (input_column w (s1, e1)) as [r2 [s2 e2]]. simpl in O2, V2, T2. subst r2.
  pose proof (rewrite_column_returns s2 e2) as (O3 & V3 & T3).
  unfold outcome, session_after in O3, V3, T3.
  destruct (rewrite_column w (s2, e2)) as [r3 [s3 e3]]. simpl in O3, V3, T3. subst r3.
  pose proof (audio_section_returns s3 e3) as (O4 & V4 & T4).
  unfold outcome, session_after in O4, V4, T4.
  destruct (audio_section w (s3, e3)) as [r4 [s4 e4]]. simpl in *.
  repeat split; congruence.
Qed.

Lemma main_keeps_valid (s : SessionState) (e : Env) :
  valid_selection s -> valid_selection (session_after (main w) s e).
Proof.
  intros Hs. destruct (main_returns s e Hs) as (_ & Hv & Ht).
  unfold valid_selection. rewrite Hv, Ht.
  split; [destruct (voice_choice w) | destruct (tone_choice w)]; simpl; auto.
Qed.

End Returns.

(** C10: [process_uploaded_file] returns the decoded text of the upload
    with the whitespace at both ends removed, and the empty text (with an
    error notice) when reading or decoding fails; an upload that decodes
    to the empty text or to whitespace only changes nothing in the
    session, and no run of it, without a button pressed, changes the
    original text, the rewritten text or the audio. Said without the
    script's own decoder and [strip]: when the octets of the file are the
    UTF-8 encoding of a text, the result is that text less a run of
    whitespace at each end, and neither of its ends is whitespace; when
    they are the UTF-8 encoding of no text, or reading raises, the result
    is empty and the error is shown; whitespace is the listed code
    points. *)
Theorem blank_upload_changes_nothing
    (services : Services) (w : Widgets) (f : UploadedFile)
    (s : SessionState) (e : Env) :
  (forall t, decoded_content f = Ok t ->
     process_uploaded_file f e = (Ok (strip t), e))
  /\ (forall ex, decoded_content f = Raise ex ->
        process_uploaded_file f e
        = (Ok [], mkEnv (clock e)
                    (Error (lit "Error reading file: ") ex :: page e)))
  /\ (input_method w = UploadFile (Some f) ->
      blank_upload f ->
      session_after (input_column w) s e = s
      /\ (rewrite_button w = false -> audio_button w = false ->
          original_text (session_after (main w) s e) = original_text s
          /\ rewritten_text (session_after (main w) s e) = rewritten_text s
          /\ audio_data (session_after (main w) s e) = audio_data s))
  /\ (forall bs t,
        read f = Ok (CBytes bs) ->
        forallb is_scalar t = true ->
        List.map Byte.to_N bs = utf8_rfc3629 t ->
        exists r l tr,
          process_uploaded_file f e = (Ok r, e)
          /\ t = l ++ r ++ tr
          /\ forallb isspace l = true /\ forallb isspace tr = true
          /\ (forall c rest, r = c :: rest ->
              isspace c = false /\ isspace (last r c) = false))
  /\ (forall bs,
        read f = Ok (CBytes bs) ->
        (forall t, forallb is_scalar t = true ->
                   List.map Byte.to_N bs <> utf8_rfc3629 t) ->
        exists ex,
          process_uploaded_file f e
          = (Ok [], mkEnv (clock e)
                      (Error (lit "Error reading file: ") ex :: page e)))
  /\ (forall ex,
        read f = Raise ex ->
        process_uploaded_file f e
        = (Ok [], mkEnv (clock e)
                    (Error (lit "Error reading file: ") ex :: page e)))
  /\ (forall c, isspace c = true <-> In c whitespace_code_points).
Proof.
  split; [|split; [|split; [|split; [|split; [|split]]]]].
  - intros t H. now rewrite process_uploaded_file_run, H.
  - intros ex H. now rewrite process_uploaded_file_run, H.
  - intros Hw Hf. split; [now apply (input_column_blank_upload w f)|].
    intros Hr Ha.
    destruct (main_steps w s e) as (s1 & s2 & s3 & H1 & H2 & H3 & H4).
    assert (E2 : s2 = s1).
    { destruct H2 as [->|[e2 ->]]; [reflexivity|].
      now apply (input_column_blank_upload w f). }
    apply reach_effect in H1, H3, H4. simpl in H1, H3, H4.
    destruct H3 as [E3|(Hb & _)]; [|congruence].
    destruct H4 as [E4|(Hb & _)]; [|congruence].
    rewrite E4, E3, E2. exact H1.
  - intros bs t. apply process_uploaded_file_text.
  - intros bs. apply process_uploaded_file_not_utf8.
  - intros ex H. rewrite process_uploaded_file_run. unfold decoded_content.
    now rewrite H.
  - apply isspace_table.
Qed.

(** ** The scenario, run *)

Example session_with_audio_value :
  session_with_audio
  = mkSession scenario_text (lit "This is notable. It will be important.")
      (lit "Neutral") (lit "Lisa")
      (Some (blit "TU9DS19BVURJT19EQVRBX1RoaXMgaXMgbm90YWJsZS4gSXQgd2lsbCBiZSBpbXBvcnRhbnQuX0xpc2E=")).
Proof. vm_compute. reflexivity. Qed.

(** Editing the text after the audio was made drops both. *)
Lemma replacing_original_text_resets_witness :
  audio_data session_with_audio <> None
  /\ rewritten_text (session_after (handler Input w_edit) session_with_audio env0) = []
  /\ audio_data (session_after (handler Input w_edit) session_with_audio env0) = None
  /\ rewritten_text (session_after (main w_edit) session_with_audio env0) = []
  /\ audio_data (session_after (main w_edit) session_with_audio env0) = None.
Proof.
  destruct (replacing_original_text_resets mock_services Input w_edit
              session_with_audio env0) as (H1 & _ & _ & H2).
  split; [vm_compute; discriminate|].
  destruct H1 as (_ & Hr & Ha); [vm_compute; discriminate|].
  destruct H2 as (Hr' & Ha'); [vm_compute; discriminate|reflexivity|].
  auto.
Defined.

(** Another voice and tone: the audio made for Lisa stays. *)
Lemma audio_survives_other_steps_witness :
  selected_voice (session_after (main w_other_voice) session_with_audio env0)
    = lit "Michael"
  /\ audio_data (session_after (main w_other_voice) session_with_audio env0)
     = audio_data session_with_audio
  /\ rewritten_text (session_after (main w_other_voice) session_with_audio env0)
     = rewritten_text session_with_audio
  /\ audio_data (session_after (handler Select w_other_voice) session_with_audio env0)
     = audio_data session_with_audio.
Proof.
  destruct (audio_survives_other_steps mock_services Select w_other_voice
              session_with_audio env0) as (H1 & _ & _ & H4).
  split; [vm_compute; reflexivity|].
  destruct H4 as (Ha & Hr); [vm_compute; reflexivity|reflexivity|].
  destruct H1 as (Ha1 & _); [left; discriminate|vm_compute; reflexivity|].
  auto.
Defined.

(** The mock synthesiser raising on a surrogate, and a backend that is
    down: either way the session is as before and the page says so. *)
Lemma handlers_keep_state_on_error_witness :
  @audio_section mock_services w_audio (surrogate_session, env0)
  = (Ok tt, (surrogate_session,
             mkEnv 1 [Error (lit "Error generating audio: ")
                        (UnicodeEncodeError 0xD800 0)]))
  /\ @rewrite_column unavailable_services w_rewrite (session_with_audio, env0)
     = (Ok tt, (session_with_audio,
                mkEnv 0 [Error (lit "Error processing text: ")
                           (OtherError (lit "service unavailable"))])).
Proof.
  split.
  - apply (proj1 (proj2 (handlers_keep_state_on_error mock_services w_audio
                           surrogate_session env0))
             (UnicodeEncodeError 0xD800 0) (mkEnv 1 [])); reflexivity.
  - apply (proj1 (handlers_keep_state_on_error unavailable_services w_rewrite
                    session_with_audio env0)
             (OtherError (lit "service unavailable")) env0); reflexivity.
Defined.

(** On the return path the field is assigned. *)
Example rewrite_assigns_on_success :
  rewritten_text (session_after (rewrite_column w_rewrite)
                    (session_after (main w_paste) fresh_session env0) env0)
  = lit "This is notable. It will be important.".
Proof. vm_compute. reflexivity. Qed.

(** A file with text in it comes back without the blanks, tab and line
    end around the text; a file of blanks and a file that is not UTF-8
    leave the session with its text, its rewrite and its audio. *)
Lemma blank_upload_changes_nothing_witness :
  process_uploaded_file text_file env0
  = (Ok [67; 97; 102; 233; 32; 116; 105; 109; 101; 46], env0)
  /\ process_uploaded_file blank_file env0 = (Ok [], env0)
  /\ process_uploaded_file broken_file env0
     = (Ok [], mkEnv 0 [Error (lit "Error reading file: ") (UnicodeDecodeError 1)])
  /\ session_after (input_column (w_upload blank_file)) session_with_audio env0
     = session_with_audio
  /\ audio_data (session_after (main (w_upload broken_file)) session_with_audio env0)
     = audio_data session_with_audio
  /\ (exists r l tr,
        process_uploaded_file text_file env0 = (Ok r, env0)
        /\ [32; 9; 67; 97; 102; 233; 32; 116; 105; 109; 101; 46; 32; 10]
           = l ++ r ++ tr
        /\ forallb isspace l = true /\ forallb isspace tr = true).
Proof.
  destruct (blank_upload_changes_nothing mock_services (w_upload text_file)
              text_file session_with_audio env0) as (H0 & _ & _ & H4 & _).
  destruct (blank_upload_changes_nothing mock_services (w_upload blank_file)
              blank_file session_with_audio env0) as (H1 & _ & H3 & _).
  destruct (blank_upload_changes_nothing mock_services (w_upload broken_file)
              broken_file session_with_audio env0) as (_ & H2' & H3' & _).
  split.
  { apply (H0 [32; 9; 67; 97; 102; 233; 32; 116; 105; 109; 101; 46; 32; 10]).
    reflexivity. }
  split; [apply (H1 (List.map chr [" "; "010"; "009"; " "]%char)); reflexivity|].
  split; [apply (H2' (UnicodeDecodeError 1)); reflexivity|].
  destruct H3 as (Hs & _); [reflexivity|vm_compute; reflexivity|].
  destruct H3' as (_ & Hm); [reflexivity|exact I|].
  destruct Hm as (_ & _ & Ha); [reflexivity|reflexivity|].
  split; [exact Hs|]. split; [exact Ha|].
  destruct (H4 (List.map octet
                  [0x20; 0x09; 0x43; 0x61; 0x66; 0xC3; 0xA9; 0x20; 0x74; 0x69;
                   0x6D; 0x65; 0x2E; 0x20; 0x0A])
               [32; 9; 67; 97; 102; 233; 32; 116; 105; 109; 101; 46; 32; 10])
    as (r & l & tr & Hp & Ht & Hl & Htr & _); [reflexivity..|].
  exists r, l, tr. auto.
Defined.

(** An upload with content replaces the text and clears the rest. *)
Example upload_replaces :
  session_after (main (w_upload (mkFile (Ok (CBytes (blit "  New text. "))))))
    session_with_audio env0
  = mkSession (lit "New text.") [] (lit "Neutral") (lit "Lisa") None.
Proof. vm_compute. reflexivity. Qed.

(** ** The library functions, on known values *)

Example ex_replace_overlap :
  replace (lit "aaa") (lit "aa") (lit "b") = lit "ba"
  /\ replace (lit "abc") [] (lit "-") = lit "-a-b-c-"
  /\ replace (lit "willow will") (lit "will") (lit "shall") = lit "shallow shall".
Proof. repeat split. Qed.

Example ex_suspenseful :
  rewrite_text scenario_text (lit "Suspenseful")
  = lit "What lies ahead? This is amazing! It shall be crucial...  The answer may surprise you.".
Proof. vm_compute. reflexivity. Qed.

Example ex_utf8 :
  encode [0xE9; 0x20AC; 0x1F3A7]
    = Ok (List.map octet [0xC3; 0xA9; 0xE2; 0x82; 0xAC; 0xF0; 0x9F; 0x8E; 0xA7])
  /\ decode (List.map octet [0xC3; 0xA9; 0xE2; 0x82; 0xAC; 0xF0; 0x9F; 0x8E; 0xA7])
     = Ok [0xE9; 0x20AC; 0x1F3A7]
  /\ decode (List.map octet [0xC0; 0x80]) = Raise (UnicodeDecodeError 0)
  /\ decode (List.map octet [0xED; 0xA0; 0x80]) = Raise (UnicodeDecodeError 0).
Proof. repeat split. Qed.

Example ex_b64 :
  b64encode (blit "Man") = blit "TWFu"
  /\ b64encode (blit "light work.") = blit "bGlnaHQgd29yay4="
  /\ b64encode (blit "light work") = blit "bGlnaHQgd29yaw==".
Proof. repeat split. Qed.

Example ex_strip :
  strip (0x3000 :: lit "  hi there " ++ [0x0A; 0x85]) = lit "hi there".
Proof. reflexivity. Qed.

(* ================================================================== *)
(** ** More of the script *)

(** *** The rewriter *)

Lemma in_ascii (l : str) (c : char) :
  forallb is_ascii l = true -> In c l -> c < 0x80.
Proof.
  intros A H. rewrite forallb_forall in A. apply N.ltb_lt. now apply A.
Qed.

Lemma replace_In_ascii (s old new : str) (c : char) :
  forallb is_ascii new = true ->
  In c (replace s old new) -> In c s \/ c < 0x80.
Proof.
  intros A H. apply replace_In in H as [H|H]; [|now left].
  right. now apply (in_ascii new).
Qed.

Lemma replace3_In_ascii (s o1 n1 o2 n2 o3 n3 : str) (c : char) :
  forallb is_ascii n1 = true -> forallb is_ascii n2 = true ->
  forallb is_ascii n3 = true ->
  In c (replace (replace (replace s o1 n1) o2 n2) o3 n3) -> In c s \/ c < 0x80.
Proof.
  intros A1 A2 A3 H.
  apply replace_In_ascii in H as [H|H]; [|now right|exact A3].
  apply replace_In_ascii in H as [H|H]; [|now right|exact A2].
  now apply replace_In_ascii in H.
Qed.

(** the rewrite adds nothing but ASCII *)
Lemma rewrite_text_chars (t tone : str) (c : char) :
  In c (rewrite_text t tone) -> In c t \/ c < 0x80.
Proof.
  unfold rewrite_text.
  destruct (str_eqb tone (lit "Suspenseful")).
  { rewrite !in_app_iff. intros [H|[H|H]]; [right; eapply in_ascii; [|eassumption]; reflexivity| |right; eapply in_ascii; [|eassumption]; reflexivity].
    now apply replace3_In_ascii in H. }
  destruct (str_eqb tone (lit "Inspiring")).
  { rewrite !in_app_iff. intros [H|[H|H]]; [right; eapply in_ascii; [|eassumption]; reflexivity| |right; eapply in_ascii; [|eassumption]; reflexivity].
    now apply replace3_In_ascii in H. }
  destruct (str_eqb tone (lit "Neutral")); [|now left].
  intros H. now apply replace3_In_ascii in H.
Qed.

Lemma ascii_is_scalar (c : char) : c < 0x80 -> is_scalar c = true.
Proof. intros H. unfold is_scalar. apply orb_true_iff. left. apply N.ltb_lt. lia. Qed.

Lemma rewrite_text_keeps_scalar (t tone : str) :
  forallb is_scalar t = true -> forallb is_scalar (rewrite_text t tone) = true.
Proof.
  rewrite !forallb_forall. intros H c Hc.
  apply rewrite_text_chars in Hc as [Hc|Hc]; [now apply H|now apply ascii_is_scalar].
Qed.

Lemma replace_scan_length (old new : str) :
  (1 <= length old <= length new)%nat ->
  forall s skip, (length s <= length (replace_scan old new skip s) + skip)%nat.
Proof.
  intros Hlen. induction s as [|c rest IH]; intros skip; [simpl; lia|].
  cbn [replace_scan length]. destruct skip as [|k].
  - destruct (startswith (c :: rest) old).
    + rewrite length_app. specialize (IH (length old - 1)%nat). lia.
    + cbn [length]. specialize (IH 0%nat). lia.
  - specialize (IH k). lia.
Qed.

Lemma replace_length (s old new : str) :
  (1 <= length old <= length new)%nat ->
  (length s <= length (replace s old new))%nat.
Proof.
  intros H. unfold replace. destruct old as [|o old']; [simpl in H; lia|].
  pose proof (replace_scan_length (o :: old') new H s 0). lia.
Qed.

Lemma rewrite_text_neutral_length (t : str) :
  (length t <= length (rewrite_text t (lit "Neutral")))%nat.
Proof.
  rewrite rewrite_text_neutral_eq.
  eapply Nat.le_trans; [|apply replace_length; simpl; lia].
  eapply Nat.le_trans; [|apply replace_length; simpl; lia].
  apply replace_length; simpl; lia.
Qed.

Lemma truthy_length (s : str) : truthy s = true <-> (0 < length s)%nat.
Proof. destruct s; simpl; split; try discriminate; try lia; auto. Qed.

Lemma rewrite_text_truthy (t tone : str) :
  truthy t = true -> truthy (rewrite_text t tone) = true.
Proof.
  intros H. unfold rewrite_text.
  destruct (str_eqb tone (lit "Suspenseful")); [reflexivity|].
  destruct (str_eqb tone (lit "Inspiring")); [reflexivity|].
  destruct (str_eqb tone (lit "Neutral")) eqn:E; [|exact H].
  apply truthy_length. apply truthy_length in H.
  pose proof (rewrite_text_neutral_length t) as L.
  rewrite rewrite_text_neutral_eq in L. lia.
Qed.

(* encode lengths *)
Lemma utf8_char_length (c : char) (bs : bytes) :
  utf8_char c = Some bs -> (1 <= length bs <= 4)%nat.
Proof.
  unfold utf8_char. intros H.
  destruct (c <? 0x80); [apply some_inj in H; subst; simpl; lia|].
  destruct (c <? 0x800); [apply some_inj in H; subst; simpl; lia|].
  destruct (c <? 0x10000).
  - destruct ((0xD800 <=? c) && (c <=? 0xDFFF)); [discriminate|].
    apply some_inj in H; subst; simpl; lia.
  - destruct (c <=? 0x10FFFF); [|discriminate].
    apply some_inj in H; subst; simpl; lia.
Qed.

Lemma encode_from_length (s : str) :
  forall pos bs, encode_from pos s = Ok bs ->
  (length s <= length bs <= 4 * length s)%nat.
Proof.
  induction s as [|c rest IH]; intros pos bs H.
  - apply ok_inj in H. subst. simpl. lia.
  - cbn [encode_from] in H.
    destruct (utf8_char c) as [b|] eqn:Ec; [|discriminate].
    destruct (encode_from (S pos) rest) as [tl|] eqn:Er; [|discriminate].
    apply ok_inj in H. subst bs. rewrite length_app. cbn [length].
    apply utf8_char_length in Ec. apply IH in Er. lia.
Qed.

Lemma encode_length (s : str) (bs : bytes) :
  encode s = Ok bs -> (length s <= length bs <= 4 * length s)%nat.
Proof. apply encode_from_length. Qed.

Lemma synthesize_ok (text voice : str) (e : Env) (a : bytes) :
  fst (synthesize text voice e) = Ok a ->
  exists bt bv, encode (slice_to 50 text) = Ok bt /\ encode voice = Ok bv
    /\ a = b64encode (blit "MOCK_AUDIO_DATA_" ++ bt ++ blit "_" ++ bv).
Proof.
  rewrite synthesize_run. cbn [fst].
  destruct (encode (slice_to 50 text)) as [bt|]; [|discriminate].
  destruct (encode voice) as [bv|]; [|discriminate].
  cbn [result_bind]. intros H. apply ok_inj in H. eauto.
Qed.

Lemma encode_inj (s1 s2 : str) (bs : bytes) :
  encode s1 = Ok bs -> encode s2 = Ok bs -> s1 = s2.
Proof.
  intros H1 H2. apply decode_encode in H1, H2. rewrite H1 in H2. now apply ok_inj in H2.
Qed.

(** *** The session between runs *)

Lemma list_index_not_In (x : str) (options : list str) :
  ~ In x options -> list_index x options = Raise (ValueError x).
Proof.
  induction options as [|o rest IH]; simpl; [reflexivity|].
  intros H. destruct (str_eqb o x) eqn:E.
  - apply str_eqb_eq in E. tauto.
  - rewrite IH by tauto. reflexivity.
Qed.

Lemma voice_name_In (v : Voice) : In (voice_name v) voice_options.
Proof. destruct v; simpl; auto. Qed.

Lemma tone_name_In (t : Tone) : In (tone_name t) tone_options.
Proof. destruct t; simpl; auto. Qed.

Lemma selected_valid (w : Widgets) (s : SessionState) : valid_selection (selected w s).
Proof. split; simpl; [apply voice_name_In | apply tone_name_In]. Qed.

Lemma sidebar_session_valid (w : Widgets) (s : SessionState) (e : Env) :
  valid_selection s -> session_after (sidebar w) s e = selected w s.
Proof.
  intros H. destruct (sidebar_returns w s e H) as [e' E].
  unfold session_after. now rewrite E.
Qed.

(* the input column, as a function of the session alone *)
Lemma input_column_cases (w : Widgets) (s : SessionState) (e : Env) :
  session_after (input_column w) s e = s
  \/ exists t, t <> original_text s
       /\ session_after (input_column w) s e
          = mkSession t [] (selected_tone s) (selected_voice s) None.
Proof.
  unfold_script.
  destruct (input_method w) as [text_input|[f|]]; script_simpl; auto.
  - destruct (str_eqb text_input (original_text s)) eqn:E; script_simpl; auto.
    right. exists text_input. split; [|reflexivity].
    intros ->. now rewrite str_eqb_refl in E.
  - rewrite process_uploaded_file_run.
    destruct (decoded_content f) as [t|ex]; script_simpl; auto.
    destruct (truthy (strip t)); script_simpl; auto.
    destruct (str_eqb (strip t) (original_text s)) eqn:E; script_simpl; auto.
    right. exists (strip t). split; [|reflexivity].
    intros H. rewrite H, str_eqb_refl in E. discriminate.
Qed.

Lemma rewrite_column_mock (w : Widgets) (s : SessionState) (e : Env) :
  session_after (@rewrite_column mock_services w) s e = s
  \/ (truthy (original_text s) = true
      /\ session_after (@rewrite_column mock_services w) s e
         = set_rewritten_text (rewrite_text (original_text s) (selected_tone s)) s).
Proof.
  unfold session_after. rewrite rewrite_column_run.
  destruct (truthy (original_text s)); [|now left].
  destruct (rewrite_button w); [|now left].
  right. split; reflexivity.
Qed.

Lemma audio_section_mock (w : Widgets) (s : SessionState) (e : Env) :
  session_after (@audio_section mock_services w) s e = s
  \/ (truthy (rewritten_text s) = true
      /\ exists a, mock_audio a
           /\ session_after (@audio_section mock_services w) s e
              = set_audio_data (Some a) s).
Proof.
  unfold session_after. rewrite audio_section_run.
  destruct (truthy (rewritten_text s)); [|now left].
  destruct (audio_button w); [|now left].
  cbn [tts_synthesize mock_services]. rewrite synthesize_run.
  destruct (encode (slice_to 50 (rewritten_text s))) as [t|]; [|now left].
  destruct (encode (selected_voice s)) as [v|]; [|now left].
  right. split; [reflexivity|]. cbn [result_bind fst snd].
  eexists. split; [|reflexivity]. now exists t, v.
Qed.

Lemma handler_consistent (a : action) (w : Widgets) (s : SessionState) (e : Env) :
  consistent s -> consistent (session_after (@handler mock_services a w) s e).
Proof.
  intros C. pose proof C as (Hv & Hr & Ha & Hm). destruct a; cbn [handler].
  - rewrite sidebar_session_valid by exact Hv.
    split; [apply selected_valid|]. split; [exact Hr|]. split; [exact Ha|exact Hm].
  - destruct (input_column_cases w s e) as [->|(t & _ & ->)].
    + exact C.
    + split; [exact Hv|]. split; [discriminate|].
      split; [intros H; now elim H|discriminate].
  - destruct (rewrite_column_mock w s e) as [->|(Ht & ->)].
    + exact C.
    + split; [exact Hv|]. split; [intros _; exact Ht|].
      split; [|exact Hm]. intros _. now apply rewrite_text_truthy.
  - destruct (audio_section_mock w s e) as [->|(Ht & a & Hma & ->)].
    + exact C.
    + split; [exact Hv|]. split; [exact Hr|].
      split; [intros _; exact Ht|].
      intros a' E. cbn in E. apply some_inj in E. now subst a'.
Qed.

Lemma main_consistent (w : Widgets) (s : SessionState) (e : Env) :
  consistent s -> consistent (session_after (@main mock_services w) s e).
Proof.
  intros H.
  destruct (@main_steps mock_services w s e) as (s1 & s2 & s3 & H1 & H2 & H3 & H4).
  assert (C1 : consistent s1).
  { destruct H1 as [->|[e1 ->]]; [exact H|now apply handler_consistent]. }
  assert (C2 : consistent s2).
  { destruct H2 as [->|[e2 ->]]; [exact C1|now apply handler_consistent]. }
  assert (C3 : consistent s3).
  { destruct H3 as [->|[e3 ->]]; [exact C2|now apply handler_consistent]. }
  destruct H4 as [->|[e4 ->]]; [exact C3|now apply handler_consistent].
Qed.

Lemma fresh_consistent : consistent fresh_session.
Proof.
  split; [apply initialize_fresh_valid|].
  split; [discriminate|]. split; [intros H; now elim H|discriminate].
Qed.

Lemma reachable_is_consistent (s : SessionState) : reachable s -> consistent s.
Proof.
  induction 1 as [|w s e _ IH]; [apply fresh_consistent|now apply main_consistent].
Qed.

Lemma input_column_paste_run (w : Widgets) (t : str) (s : SessionState) (e : Env) :
  input_method w = PasteText t ->
  t <> original_text s ->
  input_column w (s, e)
  = (Ok tt, (mkSession t [] (selected_tone s) (selected_voice s) None, e)).
Proof.
  intros Hw Hne. unfold_script. rewrite Hw. script_simpl.
  rewrite (str_eqb_neq _ _ Hne). reflexivity.
Qed.

Lemma input_column_upload_run
    (w : Widgets) (f : UploadedFile) (u : str) (s : SessionState) (e : Env) :
  input_method w = UploadFile (Some f) ->
  decoded_content f = Ok u ->
  truthy (strip u) = true ->
  strip u <> original_text s ->
  input_column w (s, e)
  = (Ok tt, (mkSession (strip u) [] (selected_tone s) (selected_voice s) None, e)).
Proof.
  intros Hw Hf Ht Hne. unfold_script. rewrite Hw. script_simpl.
  rewrite process_uploaded_file_run, Hf. script_simpl.
  rewrite Ht, (str_eqb_neq _ _ Hne). reflexivity.
Qed.

Lemma encode_voice_name (v : Voice) : exists bv, encode (voice_name v) = Ok bv.
Proof. destruct v; eexists; reflexivity. Qed.

(** new text, then rewrite, then audio, all in one run *)
Lemma pipeline_run (w : Widgets) (t : str) (s : SessionState) (e : Env) :
  valid_selection s ->
  (forall e1, input_column w (selected w s, e1)
              = (Ok tt, (mkSession t [] (tone_name (tone_choice w))
                           (voice_name (voice_choice w)) None, e1))) ->
  truthy t = true ->
  forallb is_scalar t = true ->
  rewrite_button w = true ->
  audio_button w = true ->
  exists bt bv,
    encode (slice_to 50 (rewrite_text t (tone_name (tone_choice w)))) = Ok bt
    /\ encode (voice_name (voice_choice w)) = Ok bv
    /\ session_after (@main mock_services w) s e
       = mkSession t (rewrite_text t (tone_name (tone_choice w)))
           (tone_name (tone_choice w)) (voice_name (voice_choice w))
           (Some (b64encode (blit "MOCK_AUDIO_DATA_" ++ bt ++ blit "_" ++ bv)))
    /\ outcome (@main mock_services w) s e = Ok tt.
Proof.
  intros Hv Hin Ht Hs Hrb Hab.
  set (tone := tone_name (tone_choice w)) in *.
  set (voice := voice_name (voice_choice w)) in *.
  assert (Hbt : exists bt, encode (slice_to 50 (rewrite_text t tone)) = Ok bt).
  { apply encode_scalar. apply forallb_firstn. now apply rewrite_text_keeps_scalar. }
  destruct Hbt as [bt Hbt].
  destruct (encode_voice_name (voice_choice w)) as [bv Hbv]. fold voice in Hbv.
  exists bt, bv. split; [exact Hbt|]. split; [exact Hbv|].
  destruct (sidebar_returns w s e Hv) as [e1 E1].
  unfold session_after, outcome, main, bind. rewrite E1.
  change (set_selected_tone _ _) with (selected w s). rewrite Hin.
  rewrite rewrite_column_run. cbn [original_text selected_tone]. rewrite Ht, Hrb.
  cbn [llm_rewrite_text mock_services ret].
  rewrite audio_section_run.
  cbn [rewritten_text set_rewritten_text selected_voice original_text selected_tone audio_data].
  rewrite (rewrite_text_truthy t tone Ht), Hab.
  cbn [tts_synthesize mock_services]. rewrite synthesize_run, Hbt, Hbv.
  cbn [result_bind fst snd]. split; reflexivity.
Qed.

Section AnyServices.
Context {services : Services}.
Variable w : Widgets.

(** a run with no button pressed: the select boxes, then the input column *)
Lemma main_idle_run (s : SessionState) (e : Env) :
  valid_selection s ->
  rewrite_button w = false -> audio_button w = false ->
  exists e1, session_after (main w) s e
             = session_after (input_column w) (selected w s) e1.
Proof.
  intros Hv Hr Ha. destruct (sidebar_returns w s e Hv) as [e1 E1].
  exists e1. unfold session_after, main, bind. rewrite E1.
  change (set_selected_tone _ _) with (selected w s).
  destruct (input_column w (selected w s, e1)) as [[[]|ex] [s2 e2]]; [|reflexivity].
  rewrite rewrite_column_run, Hr.
  destruct (truthy (original_text s2)); rewrite audio_section_run, Ha;
    destruct (truthy (rewritten_text s2)); reflexivity.
Qed.

(** the input column looks at the original text only, and not at the world *)
Lemma input_column_again (s : SessionState) (e e' : Env) :
  session_after (input_column w) (session_after (input_column w) s e) e'
  = session_after (input_column w) s e.
Proof.
  unfold_script.
  destruct (input_method w) as [text_input|[f|]]; script_simpl; auto.
  - destruct (str_eqb text_input (original_text s)) eqn:E; script_simpl;
      rewrite ?E, ?str_eqb_refl; reflexivity.
  - rewrite !process_uploaded_file_run.
    destruct (decoded_content f) as [t|ex]; script_simpl; [|reflexivity].
    destruct (truthy (strip t)) eqn:Et; script_simpl; [|reflexivity].
    destruct (str_eqb (strip t) (original_text s)) eqn:E; script_simpl;
      rewrite ?E, ?str_eqb_refl; reflexivity.
Qed.

Lemma input_column_keeps_selection (s : SessionState) (e : Env) :
  selected w (session_after (input_column w) s e)
  = session_after (input_column w) (selected w s) e.
Proof.
  unfold_script. unfold selected.
  destruct (input_method w) as [text_input|[f|]]; script_simpl; auto.
  - destruct (str_eqb text_input (original_text s)); reflexivity.
  - rewrite !process_uploaded_file_run.
    destruct (decoded_content f) as [t|ex]; script_simpl; [|reflexivity].
    destruct (truthy (strip t) && negb (str_eqb (strip t) (original_text s)));
      reflexivity.
Qed.

Lemma selected_again (s : SessionState) : selected w (selected w s) = selected w s.
Proof. reflexivity. Qed.

Lemma input_column_env (s : SessionState) (e e' : Env) :
  session_after (input_column w) s e = session_after (input_column w) s e'.
Proof.
  unfold_script.
  destruct (input_method w) as [text_input|[f|]]; script_simpl;
    [|  |reflexivity].
  - destruct (str_eqb text_input (original_text s)); reflexivity.
  - rewrite !process_uploaded_file_run.
    destruct (decoded_content f) as [t|ex]; script_simpl; [|reflexivity].
    destruct (truthy (strip t) && negb (str_eqb (strip t) (original_text s)));
      reflexivity.
Qed.

Lemma main_idle_again (s : SessionState) (e e' : Env) :
  valid_selection s ->
  rewrite_button w = false -> audio_button w = false ->
  session_after (main w) (session_after (main w) s e) e'
  = session_after (main w) s e.
Proof.
  intros Hv Hr Ha.
  destruct (main_idle_run s e Hv Hr Ha) as [e1 E1].
  assert (Hv1 : valid_selection (session_after (main w) s e))
    by now apply main_keeps_valid.
  destruct (main_idle_run _ e' Hv1 Hr Ha) as [e2 E2].
  rewrite E2, E1.
  rewrite input_column_keeps_selection, selected_again.
  apply input_column_again.
Qed.

Lemma main_invalid_voice (s : SessionState) (e : Env) :
  ~ In (selected_voice s) voice_options ->
  main w (s, e) = (Raise (ValueError (selected_voice s)), (s, e)).
Proof.
  intros H. unfold main, bind, sidebar, session, eval, bind. cbn [fst snd].
  rewrite (list_index_not_In _ _ H). reflexivity.
Qed.

Lemma main_invalid_tone (s : SessionState) (e : Env) :
  In (selected_voice s) voice_options ->
  ~ In (selected_tone s) tone_options ->
  main w (s, e)
  = (Raise (ValueError (selected_tone s)),
     (set_selected_voice (voice_name (voice_choice w)) s, e)).
Proof.
  intros Hv Ht. unfold main, bind, sidebar, session, eval, bind, assign. cbn [fst snd].
  destruct (list_index_In _ _ Hv) as [i ->]. cbn [fst snd selected_tone set_selected_voice].
  rewrite (list_index_not_In _ _ Ht). reflexivity.
Qed.

End AnyServices.

(** *** Words *)

Lemma split_scan_count (s : str) :
  forall word,
    (2 * length (split_scan word s)
     <= length s + match word with [] => 1 | _ :: _ => 2 end)%nat.
Proof.
  induction s as [|c rest IH]; intros word.
  - destruct word; simpl; lia.
  - cbn [split_scan length]. destruct (isspace c).
    + specialize (IH []). cbv iota in IH. destruct word; cbn [length]; lia.
    + specialize (IH (c :: word)). cbv iota in IH. destruct word; lia.
Qed.

Lemma split_scan_nil (s : str) :
  split_scan [] s = [] <-> forallb isspace s = true.
Proof.
  induction s as [|c rest IH]; [simpl; tauto|].
  cbn [split_scan forallb]. destruct (isspace c); cbn [andb]; [exact IH|].
  split; [|discriminate].
  assert (N : forall w r, w <> [] -> split_scan w r <> []).
  { intros w r. revert w. induction r as [|x r IHr]; intros w Hw; cbn [split_scan].
    - destruct w; [contradiction|discriminate].
    - destruct (isspace x); [destruct w; [contradiction|discriminate]|].
      apply IHr. discriminate. }
  intros H. exfalso. apply (N [c] rest); [discriminate|exact H].
Qed.

(** *** What a user of the page can rely on *)

Lemma session_with_audio_reachable : reachable session_with_audio.
Proof. unfold session_with_audio. do 3 apply reach_run. apply reach_fresh. Qed.



(** Whatever the tone, every character of the rewritten text is a
    character of the given text or ASCII; so a text without surrogates
    stays without. *)
Theorem rewrite_text_adds_only_ascii (t tone : str) :
  (forall c, In c (rewrite_text t tone) -> In c t \/ c < 0x80)
  /\ (forallb is_scalar t = true ->
      forallb is_scalar (rewrite_text t tone) = true).
Proof.
  split; [intros c; apply rewrite_text_chars|].
  rewrite !forallb_forall. intros H c Hc.
  apply rewrite_text_chars in Hc as [Hc|Hc]; [now apply H|].
  now apply ascii_is_scalar.
Qed.

Lemma rewrite_text_adds_only_ascii_witness :
  forallb is_scalar (rewrite_text [0x1F3A7; 46; 0xE9] (lit "Suspenseful")) = true.
Proof.
  apply (rewrite_text_adds_only_ascii [0x1F3A7; 46; 0xE9] (lit "Suspenseful")).
  reflexivity.
Defined.

(** In every tone but Suspenseful the rewrite is at least as long as
    the text, and in the Inspiring tone at least 52 characters longer. *)
Theorem rewrite_text_never_shortens (t tone : str) :
  tone <> lit "Suspenseful" ->
  (length t + (if str_eqb tone (lit "Inspiring") then 52 else 0)
   <= length (rewrite_text t tone))%nat.
Proof.
  intros H. unfold rewrite_text. rewrite (str_eqb_neq _ _ H).
  destruct (str_eqb tone (lit "Inspiring")).
  - rewrite !length_app.
    change (length (lit "Imagine the possibilities: ")) with 27%nat.
    change (length (lit " Your journey begins now!")) with 25%nat.
    pose proof (replace_length t (lit "can") (lit "have the power to")) as L1.
    pose proof (replace_length (replace t (lit "can") (lit "have the power to"))
                  (lit "should") (lit "are destined to")) as L2.
    pose proof (replace_length
                  (replace (replace t (lit "can") (lit "have the power to"))
                     (lit "should") (lit "are destined to"))
                  (lit "difficult") (lit "challenging yet conquerable")) as L3.
    cbv zeta.
    specialize (L1 ltac:(simpl; lia)). specialize (L2 ltac:(simpl; lia)).
    specialize (L3 ltac:(simpl; lia)). lia.
  - destruct (str_eqb tone (lit "Neutral")); [|lia].
    pose proof (rewrite_text_neutral_length t) as L.
    rewrite rewrite_text_neutral_eq in L. cbv zeta. lia.
Qed.

Lemma rewrite_text_never_shortens_witness :
  (8 + 52
   <= length (lit "Imagine the possibilities: You have the power to. Your journey begins now!"))%nat.
Proof.
  apply (rewrite_text_never_shortens (lit "You can.") (lit "Inspiring")).
  discriminate.
Defined.

(** A text without surrogates, rewritten in any tone, can always be
    synthesised for any of the three voices. *)
Theorem rewrite_then_synthesize_succeeds (t tone : str) (v : Voice) (e : Env) :
  forallb is_scalar t = true ->
  exists a, fst (synthesize (rewrite_text t tone) (voice_name v) e) = Ok a
            /\ mock_audio a.
Proof.
  intros H. rewrite synthesize_run.
  assert (Ht : exists bt, encode (slice_to 50 (rewrite_text t tone)) = Ok bt).
  { apply encode_scalar, forallb_firstn. now apply rewrite_text_keeps_scalar. }
  destruct Ht as [bt ->]. destruct (encode_voice_name v) as [bv ->].
  cbn [result_bind fst]. eexists. split; [reflexivity|]. now exists bt, bv.
Qed.

Lemma rewrite_then_synthesize_succeeds_witness :
  exists a,
    fst (synthesize (rewrite_text [0xE9; 33] (lit "Neutral")) (voice_name Allison) env0)
    = Ok a /\ mock_audio a.
Proof.
  apply (rewrite_then_synthesize_succeeds [0xE9; 33] (lit "Neutral") Allison env0).
  reflexivity.
Defined.

Lemma b64_symbol_code (b : Byte.byte) :
  In b (b64_pad :: b64_alphabet) ->
  let n := Byte.to_N b in
  65 <= n <= 90 \/ 97 <= n <= 122 \/ 48 <= n <= 57 \/ n = 43 \/ n = 47 \/ n = 61.
Proof.
  intros H n. subst n.
  assert (A : forallb (fun x =>
                let n := Byte.to_N x in
                ((65 <=? n) && (n <=? 90)) || ((97 <=? n) && (n <=? 122))
                || ((48 <=? n) && (n <=? 57)) || (n =? 43) || (n =? 47) || (n =? 61))
              (b64_pad :: b64_alphabet) = true) by reflexivity.
  rewrite forallb_forall in A. specialize (A b H). cbv zeta in A.
  cmp_to_prop;
    repeat match goal with
    | E : (_ =? _) = true |- _ => apply N.eqb_eq in E
    end; lia.
Qed.

(** What [synthesize] returns for one of the three voices is between 28
    and 300 octets long, a multiple of four, and made of the characters
    A-Z, a-z, 0-9, +, / and =, however long the text is. *)
Theorem synthesize_output_format (text : str) (v : Voice) (e : Env) (a : bytes) :
  fst (synthesize text (voice_name v) e) = Ok a ->
  (length a mod 4 = 0)%nat
  /\ (28 <= length a <= 300)%nat
  /\ Forall (fun b =>
       let n := Byte.to_N b in
       65 <= n <= 90 \/ 97 <= n <= 122 \/ 48 <= n <= 57
       \/ n = 43 \/ n = 47 \/ n = 61) a.
Proof.
  intros H. apply synthesize_ok in H as (bt & bv & Ht & Hv & ->).
  rewrite b64encode_length.
  apply encode_length in Ht.
  assert (L50 : (length (slice_to 50 text) <= 50)%nat) by apply firstn_le_length.
  assert (Lv : (4 <= length bv <= 7)%nat).
  { destruct v; apply ok_inj in Hv; subst bv; simpl; lia. }
  rewrite !length_app.
  change (length (blit "MOCK_AUDIO_DATA_")) with 16%nat.
  change (length (blit "_")) with 1%nat.
  split; [|split].
  - rewrite Nat.mul_comm. apply Nat.Div0.mod_mul.
  - set (n := (16 + (length bt + (1 + length bv)) + 2)%nat).
    assert (23 <= n <= 226)%nat by (subst n; lia).
    clearbody n. pose proof (Nat.div_mod_eq n 3).
    pose proof (Nat.mod_upper_bound n 3). lia.
  - eapply Forall_impl; [|apply b64encode_digits].
    intros b Hb. now apply b64_symbol_code.
Qed.

Lemma synthesize_output_format_witness :
  (length (blit "TU9DS19BVURJT19EQVRBX0hpX0xpc2E=") mod 4 = 0)%nat
  /\ (28 <= length (blit "TU9DS19BVURJT19EQVRBX0hpX0xpc2E=") <= 300)%nat
  /\ Forall (fun b =>
       let n := Byte.to_N b in
       65 <= n <= 90 \/ 97 <= n <= 122 \/ 48 <= n <= 57
       \/ n = 43 \/ n = 47 \/ n = 61) (blit "TU9DS19BVURJT19EQVRBX0hpX0xpc2E=").
Proof.
  apply (synthesize_output_format (lit "Hi") Lisa env0
           (blit "TU9DS19BVURJT19EQVRBX0hpX0xpc2E=")).
  reflexivity.
Defined.

(** Two results of [synthesize] that are the same bytes were made for
    the same voice and for texts with the same first 50 characters. *)
Theorem synthesize_identifies_text_and_voice
    (t1 t2 : str) (v1 v2 : Voice) (e1 e2 : Env) (a : bytes) :
  fst (synthesize t1 (voice_name v1) e1) = Ok a ->
  fst (synthesize t2 (voice_name v2) e2) = Ok a ->
  v1 = v2 /\ slice_to 50 t1 = slice_to 50 t2.
Proof.
  intros H1 H2.
  apply synthesize_ok in H1 as (bt1 & bv1 & Ht1 & Hv1 & E1).
  apply synthesize_ok in H2 as (bt2 & bv2 & Ht2 & Hv2 & E2).
  rewrite E1 in E2. apply b64encode_inj, app_inv_head in E2.
  assert (Hrev : rev bv1 ++ rev (blit "_") ++ rev bt1
                 = rev bv2 ++ rev (blit "_") ++ rev bt2).
  { apply (f_equal (@rev Byte.byte)) in E2.
    now rewrite !rev_app_distr, <- !app_assoc in E2. }
  assert (Hv : v1 = v2 /\ bt1 = bt2).
  { destruct v1, v2; apply ok_inj in Hv1, Hv2; subst bv1 bv2;
      cbn [rev blit List.map String.list_ascii_of_string app] in Hrev;
      try discriminate; (split; [reflexivity|]);
      now apply app_inv_tail in E2. }
  destruct Hv as [-> ->]. split; [reflexivity|].
  now apply (encode_inj _ _ bt2).
Qed.

Lemma synthesize_identifies_text_and_voice_witness :
  Lisa = Lisa
  /\ slice_to 50 (sixty_e_acute ++ lit "one") = slice_to 50 (sixty_e_acute ++ lit "two").
Proof.
  apply (synthesize_identifies_text_and_voice
           (sixty_e_acute ++ lit "one") (sixty_e_acute ++ lit "two") Lisa Lisa
           env0 (mkEnv 7 [])
           (match fst (synthesize (sixty_e_acute ++ lit "one") (lit "Lisa") env0) with
            | Ok a => a
            | Raise _ => []
            end));
    reflexivity.
Defined.

(** [b64decode] undoes [b64encode] on every byte string, the encoding is
    four characters for every three octets begun, and it is the base64 of
    RFC 4648. *)
Theorem b64decode_inverts_b64encode (bs : bytes) :
  b64decode (b64encode bs) = Ok bs
  /\ length (b64encode bs) = (4 * ((length bs + 2) / 3))%nat
  /\ List.map Byte.to_N (b64encode bs) = base64_rfc4648 (List.map Byte.to_N bs).
Proof.
  split; [apply b64decode_b64encode|].
  split; [apply b64encode_length|apply b64encode_rfc].
Qed.

(** Strict UTF-8: [decode] gives a text for exactly the octets that
    [encode] makes of it, so the two are inverse to each other; and what
    decodes is without surrogates and written as RFC 3629 says. *)
Theorem utf8_round_trip (t : str) (bs : bytes) :
  (encode t = Ok bs <-> decode bs = Ok t)
  /\ (decode bs = Ok t ->
      forallb is_scalar t = true /\ List.map Byte.to_N bs = utf8_rfc3629 t).
Proof.
  split; [split; [apply decode_encode|apply encode_decode]|apply decode_rfc].
Qed.

Lemma utf8_round_trip_witness :
  forallb is_scalar [0x43; 0xE9; 0x20AC; 0x1F3A7] = true
  /\ List.map Byte.to_N
       (List.map octet [0x43; 0xC3; 0xA9; 0xE2; 0x82; 0xAC; 0xF0; 0x9F; 0x8E; 0xA7])
     = utf8_rfc3629 [0x43; 0xE9; 0x20AC; 0x1F3A7].
Proof.
  apply (utf8_round_trip [0x43; 0xE9; 0x20AC; 0x1F3A7]
           (List.map octet [0x43; 0xC3; 0xA9; 0xE2; 0x82; 0xAC; 0xF0; 0x9F; 0x8E; 0xA7])).
  reflexivity.
Defined.

(** [create_audio_player] never raises: it returns the anchor whose
    address is the RFC 4648 base64 of the bytes given and whose download
    name is the file name given. *)
Theorem create_audio_player_returns_link (audio : bytes) (filename : str) :
  create_audio_player audio filename
  = Ok (lit "<a href=" ++ [34] ++ lit "data:audio/mp3;base64,"
        ++ base64_rfc4648 (List.map Byte.to_N audio)
        ++ [34] ++ lit " download=" ++ [34] ++ filename ++ [34]
        ++ lit ">Download Audio File</a>").
Proof.
  unfold create_audio_player. rewrite decode_b64encode, b64encode_rfc. reflexivity.
Qed.

Lemma mock_audio_nonempty (a : bytes) :
  mock_audio a -> exists b rest, a = b :: rest.
Proof.
  intros (t & v & ->).
  set (p := blit "MOCK_AUDIO_DATA_" ++ t ++ blit "_" ++ v).
  assert (Hp : (16 <= length p)%nat).
  { subst p. rewrite length_app.
    change (length (blit "MOCK_AUDIO_DATA_")) with 16%nat. lia. }
  pose proof (b64encode_length p) as L.
  destruct (b64encode p) as [|b rest]; [|now exists b, rest].
  exfalso. cbn [length] in L.
  pose proof (Nat.div_mod_eq (length p + 2) 3).
  pose proof (Nat.mod_upper_bound (length p + 2) 3). lia.
Qed.

(** In a session that runs of the script have led to, the download
    column never raises. Without audio it offers nothing; with audio it
    offers, under the MIME type audio/mp3, the bytes whose base64 is what
    the session holds, and they begin with MOCK_AUDIO_DATA_. *)
Theorem download_column_offers_decoded_audio
    (str_lower : str -> str) (download_button : bool)
    (s : SessionState) (e : Env) :
  reachable s ->
  match audio_data s with
  | None => download_column str_lower download_button (s, e) = (Ok None, (s, e))
  | Some a =>
      exists payload e',
        download_column str_lower download_button (s, e)
        = (Ok (Some (mkDownload (download_filename str_lower s) payload
                       (lit "audio/mp3"))), (s, e'))
        /\ b64encode payload = a
        /\ firstn 16 payload = blit "MOCK_AUDIO_DATA_"
  end.
Proof.
  intros R. apply reachable_is_consistent in R as (_ & _ & Ha & Hm).
  unfold download_column, bind, session, ret. cbn [fst snd].
  destruct (audio_data s) as [a|] eqn:Ea.
  - rewrite Ha by discriminate.
    destruct (Hm a eq_refl) as (t & v & E).
    destruct (mock_audio_nonempty a) as (b & rest & Eb); [now exists t, v|].
    rewrite Eb. rewrite <- Eb.
    assert (D : b64decode a = Ok (blit "MOCK_AUDIO_DATA_" ++ t ++ blit "_" ++ v))
      by (rewrite E; apply b64decode_b64encode).
    unfold lift, st_info, st_success, show, modify, eval. cbn [fst snd].
    rewrite D.
    destruct download_button; eexists; eexists;
      (split; [reflexivity|split; [now rewrite E|reflexivity]]).
  - destruct (truthy (rewritten_text s)); reflexivity.
Qed.

Lemma download_column_offers_decoded_audio_witness :
  exists payload e',
    download_column (List.map ascii_lower) true (session_with_audio, env0)
    = (Ok (Some (mkDownload (lit "audiobook_neutral_lisa.mp3") payload
                   (lit "audio/mp3"))), (session_with_audio, e'))
    /\ b64encode payload
       = blit "TU9DS19BVURJT19EQVRBX1RoaXMgaXMgbm90YWJsZS4gSXQgd2lsbCBiZSBpbXBvcnRhbnQuX0xpc2E="
    /\ firstn 16 payload = blit "MOCK_AUDIO_DATA_".
Proof.
  exact (download_column_offers_decoded_audio (List.map ascii_lower) true
           session_with_audio env0 session_with_audio_reachable).
Defined.

(** When lower-casing does on ASCII text what it does character by
    character there, and the selections are entries of their boxes, the
    file name offered is one of nine names, all in lower case. *)
Theorem download_filename_is_one_of_nine (str_lower : str -> str) (s : SessionState) :
  (forall t, forallb is_ascii t = true -> str_lower t = List.map ascii_lower t) ->
  valid_selection s ->
  In (download_filename str_lower s)
     [lit "audiobook_neutral_lisa.mp3"; lit "audiobook_neutral_michael.mp3";
      lit "audiobook_neutral_allison.mp3"; lit "audiobook_suspenseful_lisa.mp3";
      lit "audiobook_suspenseful_michael.mp3"; lit "audiobook_suspenseful_allison.mp3";
      lit "audiobook_inspiring_lisa.mp3"; lit "audiobook_inspiring_michael.mp3";
      lit "audiobook_inspiring_allison.mp3"].
Proof.
  intros L [Hv Ht]. unfold download_filename.
  cbn [voice_options tone_options In] in Hv, Ht.
  destruct Hv as [Hv|[Hv|[Hv|[]]]]; destruct Ht as [Ht|[Ht|[Ht|[]]]];
    rewrite <- Hv, <- Ht, !L by reflexivity;
    vm_compute; tauto.
Qed.

Lemma download_filename_is_one_of_nine_witness :
  In (download_filename (List.map ascii_lower)
        (mkSession [] [] (lit "Inspiring") (lit "Michael") None))
     [lit "audiobook_neutral_lisa.mp3"; lit "audiobook_neutral_michael.mp3";
      lit "audiobook_neutral_allison.mp3"; lit "audiobook_suspenseful_lisa.mp3";
      lit "audiobook_suspenseful_michael.mp3"; lit "audiobook_suspenseful_allison.mp3";
      lit "audiobook_inspiring_lisa.mp3"; lit "audiobook_inspiring_michael.mp3";
      lit "audiobook_inspiring_allison.mp3"].
Proof.
  apply (download_filename_is_one_of_nine (List.map ascii_lower)
           (mkSession [] [] (lit "Inspiring") (lit "Michael") None)).
  - reflexivity.
  - split; simpl; auto.
Defined.

(** Pasting a new text without surrogates and pressing both buttons in
    one run: the run ends normally and the session holds the text, its
    rewrite in the chosen tone, the two choices, and audio that is the
    base64 of the marker, the UTF-8 of the first 50 characters of the
    rewrite, an underscore and the voice. *)
Theorem paste_rewrite_synthesize_in_one_run
    (v : Voice) (tn : Tone) (t : str) (s : SessionState) (e : Env) :
  valid_selection s ->
  truthy t = true ->
  forallb is_scalar t = true ->
  t <> original_text s ->
  let w := mkWidgets v tn (PasteText t) true true in
  exists a,
    outcome (@main mock_services w) s e = Ok tt
    /\ session_after (@main mock_services w) s e
       = mkSession t (rewrite_text t (tone_name tn)) (tone_name tn) (voice_name v)
           (Some a)
    /\ List.map Byte.to_N a
       = base64_rfc4648
           (lit "MOCK_AUDIO_DATA_"
            ++ utf8_rfc3629 (firstn 50 (rewrite_text t (tone_name tn)))
            ++ lit "_" ++ utf8_rfc3629 (voice_name v)).
Proof.
  intros Hv Ht Hs Hne w.
  destruct (pipeline_run w t s e Hv) as (bt & bv & Hbt & Hbv & Hses & Hout);
    try assumption; try reflexivity.
  { intros e1. now apply input_column_paste_run. }
  cbn [tone_choice voice_choice w] in *.
  eexists. split; [exact Hout|]. split; [exact Hses|].
  rewrite b64encode_rfc, !map_app, !blit_lit.
  now rewrite (encode_rfc _ _ Hbt), (encode_rfc _ _ Hbv).
Qed.

Lemma paste_rewrite_synthesize_in_one_run_witness :
  exists a,
    outcome (@main mock_services (mkWidgets Michael Suspenseful (PasteText (lit "It will."))
                                   true true))
      fresh_session env0 = Ok tt
    /\ session_after (@main mock_services
                        (mkWidgets Michael Suspenseful (PasteText (lit "It will."))
                           true true))
         fresh_session env0
       = mkSession (lit "It will.")
           (lit "What lies ahead? It shall...  The answer may surprise you.")
           (lit "Suspenseful") (lit "Michael") (Some a)
    /\ List.map Byte.to_N a
       = base64_rfc4648
           (lit "MOCK_AUDIO_DATA_What lies ahead? It shall...  The answer may surpr_Michael").
Proof.
  apply (paste_rewrite_synthesize_in_one_run Michael Suspenseful (lit "It will.")
           fresh_session env0).
  - apply initialize_fresh_valid.
  - reflexivity.
  - reflexivity.
  - discriminate.
Defined.

(** The same for an uploaded file whose bytes are the UTF-8 of a text
    with something other than whitespace in it: the session holds that
    text without its leading and trailing whitespace, its rewrite and the
    audio made of the rewrite. *)
Theorem upload_rewrite_synthesize_in_one_run
    (v : Voice) (tn : Tone) (f : UploadedFile) (bs : bytes) (u : str)
    (s : SessionState) (e : Env) :
  valid_selection s ->
  read f = Ok (CBytes bs) ->
  forallb is_scalar u = true ->
  List.map Byte.to_N bs = utf8_rfc3629 u ->
  truthy (strip u) = true ->
  strip u <> original_text s ->
  let w := mkWidgets v tn (UploadFile (Some f)) true true in
  exists a,
    outcome (@main mock_services w) s e = Ok tt
    /\ session_after (@main mock_services w) s e
       = mkSession (strip u) (rewrite_text (strip u) (tone_name tn))
           (tone_name tn) (voice_name v) (Some a)
    /\ List.map Byte.to_N a
       = base64_rfc4648
           (lit "MOCK_AUDIO_DATA_"
            ++ utf8_rfc3629 (firstn 50 (rewrite_text (strip u) (tone_name tn)))
            ++ lit "_" ++ utf8_rfc3629 (voice_name v)).
Proof.
  intros Hv Hr Hs Hbs Ht Hne w.
  assert (Hd : decoded_content f = Ok u).
  { unfold decoded_content. rewrite Hr. cbn [result_bind]. now apply rfc_decode. }
  destruct (pipeline_run w (strip u) s e Hv) as (bt & bv & Hbt & Hbv & Hses & Hout);
    try assumption; try reflexivity.
  { intros e1. now apply (input_column_upload_run w f u). }
  { now apply strip_keeps_scalar. }
  cbn [tone_choice voice_choice w] in *.
  eexists. split; [exact Hout|]. split; [exact Hses|].
  rewrite b64encode_rfc, !map_app, !blit_lit.
  now rewrite (encode_rfc _ _ Hbt), (encode_rfc _ _ Hbv).
Qed.

Lemma upload_rewrite_synthesize_in_one_run_witness :
  exists a,
    outcome (@main mock_services (mkWidgets Allison Inspiring (UploadFile (Some text_file))
                                   true true))
      fresh_session env0 = Ok tt
    /\ session_after (@main mock_services
                        (mkWidgets Allison Inspiring (UploadFile (Some text_file))
                           true true))
         fresh_session env0
       = mkSession
           [0x43; 0x61; 0x66; 0xE9; 0x20; 0x74; 0x69; 0x6D; 0x65; 0x2E]
           (lit "Imagine the possibilities: Caf" ++ [0xE9]
            ++ lit " time. Your journey begins now!")
           (lit "Inspiring") (lit "Allison") (Some a)
    /\ List.map Byte.to_N a
       = base64_rfc4648
           (lit "MOCK_AUDIO_DATA_Imagine the possibilities: Caf" ++ [0xC3; 0xA9]
            ++ lit " time. Your journey_Allison").
Proof.
  apply (upload_rewrite_synthesize_in_one_run Allison Inspiring text_file
           (List.map octet
              [0x20; 0x09; 0x43; 0x61; 0x66; 0xC3; 0xA9; 0x20; 0x74; 0x69; 0x6D; 0x65;
               0x2E; 0x20; 0x0A])
           [0x20; 0x09; 0x43; 0x61; 0x66; 0xE9; 0x20; 0x74; 0x69; 0x6D; 0x65; 0x2E;
            0x20; 0x0A]
           fresh_session env0).
  - apply initialize_fresh_valid.
  - reflexivity.
  - reflexivity.
  - reflexivity.
  - reflexivity.
  - discriminate.
Defined.



(** A stored voice that is not an entry of the voice box makes the run
    raise [ValueError] at the first select box, before anything has
    changed; a stored tone that is no entry makes it raise at the second,
    when only the voice has been replaced. *)
Theorem main_raises_on_unknown_selection
    (services : Services) (w : Widgets) (s : SessionState) (e : Env) :
  (~ In (selected_voice s) voice_options ->
   @main services w (s, e) = (Raise (ValueError (selected_voice s)), (s, e)))
  /\ (In (selected_voice s) voice_options ->
      ~ In (selected_tone s) tone_options ->
      @main services w (s, e)
      = (Raise (ValueError (selected_tone s)),
         (set_selected_voice (voice_name (voice_choice w)) s, e))).
Proof.
  split; [apply main_invalid_voice|apply main_invalid_tone].
Qed.

Lemma main_raises_on_unknown_selection_witness :
  @main mock_services w_all (stale_session, env0)
  = (Raise (ValueError (lit "Bob")), (stale_session, env0)).
Proof.
  apply (main_raises_on_unknown_selection mock_services w_all stale_session env0).
  simpl. intros [H|[H|[H|[]]]]; discriminate H.
Defined.

Lemma truthy_not_nil (t : str) : truthy t = true <-> t <> [].
Proof. destruct t; simpl; split; intros H; try discriminate; try reflexivity; now elim H. Qed.

(** A session that runs of the script have led to, starting from a new
    tab and with the mock services, has selections that are entries of
    their boxes, has no rewrite without a text, and has no audio without
    a rewrite; and its audio decodes to bytes that begin with the marker. *)
Theorem reachable_sessions_are_consistent (s : SessionState) :
  reachable s ->
  valid_selection s
  /\ (rewritten_text s <> [] -> original_text s <> [])
  /\ (forall a, audio_data s = Some a ->
      rewritten_text s <> []
      /\ exists t v,
           b64decode a = Ok (blit "MOCK_AUDIO_DATA_" ++ t ++ blit "_" ++ v)).
Proof.
  intros R. apply reachable_is_consistent in R as (Hv & Hr & Ha & Hm).
  split; [exact Hv|]. split.
  - intros H. now apply truthy_not_nil, Hr, truthy_not_nil.
  - intros a E. split.
    + apply truthy_not_nil, Ha. rewrite E. discriminate.
    + destruct (Hm a E) as (t & v & ->). exists t, v. apply b64decode_b64encode.
Qed.

Lemma reachable_sessions_are_consistent_witness :
  valid_selection session_with_audio
  /\ (rewritten_text session_with_audio <> [] -> original_text session_with_audio <> [])
  /\ (forall a, audio_data session_with_audio = Some a ->
      rewritten_text session_with_audio <> []
      /\ exists t v,
           b64decode a = Ok (blit "MOCK_AUDIO_DATA_" ++ t ++ blit "_" ++ v)).
Proof.
  apply (reachable_sessions_are_consistent session_with_audio).
  unfold session_with_audio. do 3 apply reach_run. apply reach_fresh.
Defined.

(** Running the script again with the same widgets and no button
    pressed changes nothing more, whatever the services are. *)
Theorem idle_rerun_changes_nothing
    (services : Services) (w : Widgets) (s : SessionState) (e e' : Env) :
  valid_selection s ->
  rewrite_button w = false ->
  audio_button w = false ->
  session_after (@main services w) (session_after (@main services w) s e) e'
  = session_after (@main services w) s e.
Proof. apply main_idle_again. Qed.

Lemma idle_rerun_changes_nothing_witness :
  session_after (@main mock_services w_edit)
    (session_after (@main mock_services w_edit) session_with_audio env0) (mkEnv 9 [])
  = mkSession (lit "Something else.") [] (lit "Neutral") (lit "Lisa") None.
Proof.
  apply (idle_rerun_changes_nothing mock_services w_edit session_with_audio env0
           (mkEnv 9 [])).
  - split; simpl; auto.
  - reflexivity.
  - reflexivity.
Defined.

(** Emptying the text area of a session that had a text leaves a
    session with no text, no rewrite and no audio, and the two buttons,
    pressed or not, do nothing in that run. *)
Theorem clearing_the_text_clears_the_session
    (services : Services) (v : Voice) (tn : Tone) (rb ab : bool)
    (s : SessionState) (e : Env) :
  valid_selection s ->
  original_text s <> [] ->
  let w := mkWidgets v tn (PasteText []) rb ab in
  outcome (@main services w) s e = Ok tt
  /\ session_after (@main services w) s e
     = mkSession [] [] (tone_name tn) (voice_name v) None.
Proof.
  intros Hv Hne w.
  destruct (sidebar_returns w s e Hv) as [e1 E1].
  unfold outcome, session_after, main, bind. rewrite E1.
  rewrite (input_column_paste_run w [] _ e1); [|reflexivity|].
  - rewrite rewrite_column_run. cbn [original_text truthy].
    unfold lift, st_info, show, modify. cbn [fst snd].
    rewrite audio_section_run. cbn [rewritten_text truthy].
    split; reflexivity.
  - cbn [original_text set_selected_tone set_selected_voice]. congruence.
Qed.

Lemma clearing_the_text_clears_the_session_witness :
  outcome (@main mock_services (mkWidgets Lisa Neutral (PasteText []) true true))
    session_with_audio env0 = Ok tt
  /\ session_after (@main mock_services (mkWidgets Lisa Neutral (PasteText []) true true))
       session_with_audio env0
     = mkSession [] [] (lit "Neutral") (lit "Lisa") None.
Proof.
  apply (clearing_the_text_clears_the_session mock_services Lisa Neutral true true
           session_with_audio env0).
  - split; simpl; auto.
  - discriminate.
Defined.

Lemma split_scan_concat (s : str) :
  forall word,
    concat (split_scan word s)
    = rev word ++ filter (fun c => negb (isspace c)) s.
Proof.
  induction s as [|c rest IH]; intros word.
  - destruct word; cbn [split_scan concat filter]; [reflexivity|].
    now rewrite app_nil_r.
  - cbn [split_scan filter]. destruct (isspace c); cbn [negb].
    + destruct word; [apply IH|]. cbn [concat]. now rewrite IH.
    + rewrite IH. cbn [rev]. now rewrite <- app_assoc.
Qed.

Lemma split_scan_words (s : str) :
  forall word,
    forallb (fun c => negb (isspace c)) word = true ->
    Forall (fun w => w <> [] /\ forallb (fun c => negb (isspace c)) w = true)
      (split_scan word s).
Proof.
  assert (R : forall word, word <> [] ->
              forallb (fun c => negb (isspace c)) word = true ->
              rev word <> [] /\ forallb (fun c => negb (isspace c)) (rev word) = true).
  { intros word Hne Hw. split.
    - intros E. apply (f_equal (@rev _)) in E. rewrite rev_involutive in E.
      now apply Hne.
    - now rewrite forallb_rev. }
  induction s as [|c rest IH]; intros word Hw.
  - destruct word; cbn [split_scan]; [constructor|].
    constructor; [|constructor]. apply R; [discriminate|exact Hw].
  - cbn [split_scan]. destruct (isspace c) eqn:E.
    + destruct word; [now apply IH|].
      constructor; [apply R; [discriminate|exact Hw]|now apply IH].
    + apply IH. cbn [forallb]. now rewrite E, Hw.
Qed.

(** [split] loses nothing but whitespace: its words, put together, are
    the text with the whitespace taken out, and every word has a
    character and none of the listed whitespace code points. *)
Theorem split_loses_only_whitespace (s : str) :
  concat (split s) = filter (fun c => negb (isspace c)) s
  /\ Forall (fun w => w <> [] /\ forall c, In c w -> ~ In c whitespace_code_points)
       (split s).
Proof.
  split; [apply (split_scan_concat s [])|].
  eapply Forall_impl; [|apply (split_scan_words s []); reflexivity].
  intros w [Hne Hw]. split; [exact Hne|].
  intros c Hc Hs. rewrite forallb_forall in Hw. specialize (Hw c Hc).
  apply isspace_table in Hs. now rewrite Hs in Hw.
Qed.

(** The figures under a text: the characters are its length, there are
    at most half as many words as characters and one (none exactly when
    the text is whitespace only), and the minutes are one more than the
    number of whole two hundreds of words. *)
Theorem text_stats_bounds (text : str) :
  characters (text_stats text) = length text
  /\ (2 * words (text_stats text) <= length text + 1)%nat
  /\ (words (text_stats text) = 0%nat
      <-> forall c, In c text -> In c whitespace_code_points)
  /\ (200 * (reading_minutes (text_stats text) - 1) <= words (text_stats text)
      < 200 * reading_minutes (text_stats text))%nat.
Proof.
  unfold text_stats, split. cbn [characters words reading_minutes].
  split; [reflexivity|]. split; [apply (split_scan_count text [])|]. split.
  - rewrite length_zero_iff_nil, split_scan_nil, forallb_forall.
    split; intros H c Hc; apply isspace_table; now apply H.
  - set (n := length (split_scan [] text)).
    pose proof (Nat.div_mod_eq n 200). pose proof (Nat.mod_upper_bound n 200). lia.
Qed.

(** In a session that runs of the script have led to, the comparison is
    shown exactly when there is a rewrite, and then with the figures of
    the two texts. *)
Theorem comparison_shown_with_rewrite (s : SessionState) :
  reachable s ->
  comparison s
  = if truthy (rewritten_text s)
    then Some (text_stats (original_text s), text_stats (rewritten_text s))
    else None.
Proof.
  intros R. apply reachable_is_consistent in R as (_ & Hr & _).
  unfold comparison. destruct (truthy (rewritten_text s)).
  - now rewrite Hr.
  - now rewrite andb_false_r.
Qed.

Lemma comparison_shown_with_rewrite_witness :
  comparison session_with_audio = Some (mkStats 7 38 1, mkStats 7 38 1).
Proof.
  apply (comparison_shown_with_rewrite session_with_audio).
  unfold session_with_audio. do 3 apply reach_run. apply reach_fresh.
Defined.


